(** * CSVStaticTable: the CSV tokenizer and table model of src/csv/csv.cpp

    The C++ code tokenizes one mutable, NUL-terminated buffer in place and
    stores [const char*] views into it.  The embedding keeps that shape: the
    buffer is a list of characters updated by index, a [char*] is an offset
    into it, and every access outside the buffer is reported as
    [OutOfBounds] instead of being given a value. *)

From Stdlib Require Import ZArith Lia Ascii String DecimalString.
From stdpp Require Import gmap strings list fin_maps.

Local Open Scope Z_scope.
Local Open Scope nat_scope.

(** ** Outcome of running a piece of the program *)

Inductive res (A : Type) : Type :=
| Ret (a : A)       (* ran to completion *)
| OutOfBounds       (* read or write outside an object: undefined behaviour *)
| NoFuel.           (* the iteration bound given to the model was used up *)

Arguments Ret {A} a.
Arguments OutOfBounds {A}.
Arguments NoFuel {A}.

Definition bind {A B : Type} (x : res A) (f : A -> res B) : res B :=
  match x with
  | Ret a => f a
  | OutOfBounds => OutOfBounds
  | NoFuel => NoFuel
  end.

Notation "'let*' x ':=' e 'in' k" := (bind e (fun x => k))
  (at level 10, x pattern, e at level 100, k at level 200).

(** ** Characters, the buffer and pointers into it *)

Definition NUL : ascii := "000"%char.
Definition CR : ascii := "013"%char.
Definition LF : ascii := "010"%char.
Definition QUOTE : ascii := "034"%char.
Definition COMMA : ascii := ","%char.
Definition HASH : ascii := "#"%char.

(** [this->buf]: the bytes of the file followed by a terminator. *)
Definition mem := list ascii.

(** A [char*] into the buffer, as an offset from [buf]. *)
Definition ptr := nat.

Definition load (m : mem) (p : ptr) : res ascii :=
  match m !! p with
  | Some x => Ret x
  | None => OutOfBounds
  end.

Definition store (m : mem) (p : ptr) (x : ascii) : res mem :=
  if decide (p < length m) then Ret (<[p := x]> m) else OutOfBounds.

(** ** strstr and strtok_c *)

(** Does the character sequence [d] occur at the head of [l]?  The
    delimiters used by the program hold no NUL, so a match never runs over
    the terminator of the searched string. *)
Fixpoint starts_with (d l : list ascii) : bool :=
  match d, l with
  | [], _ => true
  | x :: d', y :: l' => Ascii.eqb x y && starts_with d' l'
  | _ :: _, [] => false
  end.

(** [strstr(l, d)]: offset of the first occurrence of [d] in the C string
    that starts at [l]; [Ret None] is the NULL result.  A string without
    terminator inside the buffer makes the search leave the buffer. *)
Fixpoint strstr (l : list ascii) (d : list ascii) : res (option nat) :=
  if starts_with d l then Ret (Some 0)
  else
    match l with
    | [] => OutOfBounds
    | c :: l' =>
        if Ascii.eqb c NUL then Ret None
        else let* r := strstr l' d in Ret (S <$> r)
    end.

(** The loop [for (d = _Delim; *d; d++) *c++ = 0]. *)
Fixpoint wipe (m : mem) (c : ptr) (d : list ascii) : res (mem * ptr) :=
  match d with
  | [] => Ret (m, c)
  | _ :: d' => let* m' := store m c NUL in wipe m' (S c) d'
  end.

(** [strtok_c(_Str, _Delim, _Context)].  The result is the token (or NULL),
    the buffer and the new value of [*_Context]. *)
Definition strtok_c (m : mem) (_Str : option ptr) (_Delim : list ascii)
    (_Context : ptr) : res (option ptr * mem * ptr) :=
  let ctx := match _Str with Some s => s | None => _Context end in
  let* c := strstr (drop ctx m) _Delim in
  match c with
  | Some k =>
      let* (m', c') := wipe m (ctx + k) _Delim in
      Ret (Some ctx, m', c')
  | None => Ret (None, m, ctx)
  end.

(** ** csvtok *)

(** The copying loop of [csvtok] for a quoted field: [c] reads, [t] writes.
    Its condition [c != 0] compares the pointer, not the character, so the
    loop only ends at the closing quote; the result is the buffer and the
    value left in [*ctx]. *)
Fixpoint csvtok_loop (fuel : nat) (m : mem) (c t : ptr) : res (mem * ptr) :=
  match fuel with
  | 0 => NoFuel
  | S fuel' =>
      let* x := load m c in
      let* m1 := store m t x in
      let* y := load m1 c in
      if Ascii.eqb y QUOTE then
        let* z := load m1 (S c) in
        if Ascii.eqb z QUOTE then csvtok_loop fuel' m1 (S (S c)) (S t)
        else
          let* m2 := store m1 t NUL in
          Ret (m2, S c)
      else csvtok_loop fuel' m1 (S c) (S t)
  end.

Definition csvtok (m : mem) (ctx : ptr) : res (option ptr * mem * ptr) :=
  let* x := load m ctx in
  if negb (Ascii.eqb x QUOTE) then strtok_c m None [COMMA] ctx
  else
    let tok := ctx in
    let* (m1, ctx1) := csvtok_loop (length m) m (S ctx) tok in
    let* (_, m2, ctx2) := strtok_c m1 None [COMMA] ctx1 in
    Ret (Some tok, m2, ctx2).

(** ** The table *)

(** A field reference ([const char*]): a view into the buffer, or the
    address of a string literal of the program. *)
Inductive cptr : Type :=
| InBuf (p : ptr)
| Literal (s : list ascii).

Record CSVStaticTable : Type := mkTable {
  buf : option mem;                (* NULL, or the owned buffer *)
  cells : list (list cptr)         (* row 0 is the header *)
}.

(** The default constructor: [buf(NULL)], [cells.clear()]. *)
Definition CSVStaticTable_new : CSVStaticTable := mkTable None [].

(** Load flags.

    Modelled from the spec: the enumeration of csv.h is not among the
    sources; the spec describes a bitset of independently settable flags,
    taken here as distinct bits. *)
Definition CSV_ST_PRUNE_EMPTY : Z := 1.
Definition CSV_ST_PRUNE_COMMENTS : Z := 2.
Definition CSV_ST_HEADERLESS_SINGLEFIELD : Z := 4.

Definition flag_set (bits flag : Z) : bool := negb (Z.land bits flag =? 0)%Z.

(** Modelled from the spec: the inline accessors of csv.h are not among the
    sources.  Row and field counts are derived from the grid, row 0 being
    the header: the data rows are the rows after it, the fields are those of
    the header. *)
Definition RowCount (t : CSVStaticTable) : Z :=
  (Z.of_nat (length (cells t)) - 1)%Z.

Definition FieldCount (t : CSVStaticTable) : res nat :=
  match cells t with
  | h :: _ => Ret (length h)
  | [] => OutOfBounds
  end.

(** [v[i]] on a vector. *)
Definition at_ {A : Type} (v : list A) (i : nat) : res A :=
  match v !! i with
  | Some x => Ret x
  | None => OutOfBounds
  end.

(** [v.erase(v.begin() + i)]. *)
Definition erase {A : Type} (v : list A) (i : nat) : res (list A) :=
  if decide (i < length v) then Ret (delete i v) else OutOfBounds.

(** [*p] for a field reference. *)
Definition deref (t : CSVStaticTable) (p : cptr) : res ascii :=
  match p with
  | InBuf q =>
      match buf t with
      | Some m => load m q
      | None => OutOfBounds
      end
  | Literal s => Ret (hd NUL s)
  end.

(** The characters of the C string at the head of [l], up to its NUL. *)
Fixpoint cstring (l : list ascii) : res (list ascii) :=
  match l with
  | [] => OutOfBounds
  | c :: l' =>
      if Ascii.eqb c NUL then Ret []
      else let* s := cstring l' in Ret (c :: s)
  end.

(** The C string a field reference points to. *)
Definition str_of (t : CSVStaticTable) (p : cptr) : res (list ascii) :=
  match p with
  | InBuf q =>
      match buf t with
      | Some m => cstring (drop q m)
      | None => OutOfBounds
      end
  | Literal s => cstring (s ++ [NUL])
  end.

Definition strlen (t : CSVStaticTable) (p : cptr) : res nat :=
  let* s := str_of t p in Ret (length s).

(** [FieldName(field_index)] and [CellValue(row_index, field_index)]; the
    [_ASSERT]s are debug checks and compile to nothing in a release build. *)
Definition FieldName (t : CSVStaticTable) (field_index : nat) : res cptr :=
  let* row := at_ (cells t) 0 in at_ row field_index.

Definition CellValue (t : CSVStaticTable) (row_index field_index : nat)
    : res cptr :=
  let* row := at_ (cells t) (row_index + 1) in at_ row field_index.

(** ** Console output *)

(** One constructor per [Con_Printf_v], [Con_Warning] and [Con_Error] call of
    csv.cpp, with the values given to its format. *)
Inductive msg : Type :=
| Printf_Loading (path : string)             (* Loading CSV '%s...' *)
| Printf_PrunedRows (n : Z)                  (* Pruned %d empty rows from table *)
| Printf_PrunedColumns (n : Z)               (* Pruned %d empty columns from table *)
| Warning_UnnamedField (actual_column : nat) (* Ignoring value with unnamed field *)
| Error_OpenRead (path : string)             (* Unable to open file '%s' for reading *)
| Error_FieldCount (row found expected : nat) (* Incorrect number of fields on row %d *)
| Error_Exists (path : string)               (* File '%s' already exists *)
| Error_OpenWrite (path : string).           (* Unable to open file '%s' for writing *)

(** ** PruneRows and DeleteRow *)

(** The inner loop of [PruneRows] over the fields [c .. c+n-1] of row
    [cells[r+1]]: is there a field of non-zero length? *)
Fixpoint has_content (t : CSVStaticTable) (r : nat) (c n : nat) : res bool :=
  match n with
  | 0 => Ret false
  | S n' =>
      let* row := at_ (cells t) (r + 1) in
      let* p := at_ row c in
      let* len := strlen t p in
      if negb (len =? 0) then Ret true else has_content t r (S c) n'
  end.

(** One pass through the body of the [for] loop of [PruneRows], from the
    table, [r] and [pruned_count] to their values at the end of the body. *)
Definition PruneRows_body (bits : Z) (t : CSVStaticTable) (r : nat)
    (pruned_count : Z) : res (CSVStaticTable * nat * Z) :=
  let* (t1, pruned1) :=
    if flag_set bits CSV_ST_PRUNE_COMMENTS then
      let* row := at_ (cells t) (r + 1) in
      let* p := at_ row 0 in
      let* x := deref t p in
      if Ascii.eqb x HASH then
        let* cells' := erase (cells t) (r + 1) in
        Ret (mkTable (buf t) cells', (pruned_count + 1)%Z)
      else Ret (t, pruned_count)
    else Ret (t, pruned_count) in
  if flag_set bits CSV_ST_PRUNE_EMPTY then
    let* n := FieldCount t1 in
    let* content := has_content t1 r 0 n in
    if content then Ret (t1, S r, pruned1)
    else
      let* cells' := erase (cells t1) (r + 1) in
      Ret (mkTable (buf t1) cells', r, (pruned1 + 1)%Z)
  else Ret (t1, r, pruned1).

Fixpoint PruneRows_loop (fuel : nat) (bits : Z) (t : CSVStaticTable)
    (r : nat) (pruned_count : Z) : res (CSVStaticTable * Z) :=
  if (Z.of_nat r <? RowCount t)%Z then
    match fuel with
    | 0 => NoFuel
    | S fuel' =>
        let* (t', r', pruned') := PruneRows_body bits t r pruned_count in
        PruneRows_loop fuel' bits t' r' pruned'
    end
  else Ret (t, pruned_count).

(** [PruneRows(bits)]: the return value, the table afterwards and what was
    printed.  [fuel] bounds the number of passes through the loop. *)
Definition PruneRows (fuel : nat) (bits : Z) (t : CSVStaticTable)
    : res (Z * CSVStaticTable * list msg) :=
  if (Z.land bits (Z.lor CSV_ST_PRUNE_EMPTY CSV_ST_PRUNE_COMMENTS) =? 0)%Z
  then Ret (0%Z, t, [])
  else
    let* (t', pruned_count) := PruneRows_loop fuel bits t 0 0%Z in
    Ret (pruned_count, t',
         if (pruned_count =? 0)%Z then []
         else [Printf_PrunedRows pruned_count]).

(** [DeleteRow(row_index)]: erases at [cells.begin() + 1 + row_index]. *)
Definition DeleteRow (t : CSVStaticTable) (row_index : Z)
    : res CSVStaticTable :=
  let k := (1 + row_index)%Z in
  if (k <? 0)%Z then OutOfBounds
  else
    let* cells' := erase (cells t) (Z.to_nat k) in
    Ret (mkTable (buf t) cells').

(** ** PruneColumns *)

(** The inner loop [for (r = ...; r < RowCount(); r++)] of [PruneColumns],
    for the [n] rows from [r] on.  The test reads [CellValue(r, c)], the
    erase is done on [cells[r]]. *)
Fixpoint PruneColumns_rows (t : CSVStaticTable) (c actual_column : nat)
    (r n : nat) (out : list msg) : res (CSVStaticTable * list msg) :=
  match n with
  | 0 => Ret (t, out)
  | S n' =>
      let* p := CellValue t r c in
      let* x := deref t p in
      let out' :=
        if negb (Ascii.eqb x NUL)
        then out ++ [Warning_UnnamedField actual_column] else out in
      let* row := at_ (cells t) r in
      let* row' := erase row c in
      PruneColumns_rows (mkTable (buf t) (<[r := row']> (cells t)))
        c actual_column (S r) n' out'
  end.

Fixpoint PruneColumns_loop (fuel : nat) (t : CSVStaticTable)
    (c actual_column : nat) (pruned_count : Z) (out : list msg)
    : res (CSVStaticTable * Z * list msg) :=
  let* fc := FieldCount t in
  if c <? fc then
    match fuel with
    | 0 => NoFuel
    | S fuel' =>
        let* p := FieldName t c in
        let* x := deref t p in
        if negb (Ascii.eqb x NUL) then
          PruneColumns_loop fuel' t (S c) (S actual_column) pruned_count out
        else
          let* (t1, out1) :=
            PruneColumns_rows t c actual_column 1
              (Z.to_nat (RowCount t - 1)) out in
          let* h := at_ (cells t1) 0 in
          let* h' := erase h c in
          PruneColumns_loop fuel' (mkTable (buf t1) (<[0 := h']> (cells t1)))
            c (S actual_column) (pruned_count + 1)%Z out1
    end
  else Ret (t, pruned_count, out).

(** [PruneColumns()]: every pass either advances [c] or shortens the
    header, so the number of header fields bounds the passes. *)
Definition PruneColumns (t : CSVStaticTable)
    : res (Z * CSVStaticTable * list msg) :=
  let* (t', pruned_count, out) :=
    PruneColumns_loop (length (hd [] (cells t))) t 0 0 0%Z [] in
  Ret (pruned_count, t',
       if (pruned_count =? 0)%Z then out
       else out ++ [Printf_PrunedColumns pruned_count]).

(** ** The outside world: files and the console *)

Record World : Type := mkWorld {
  files : gmap string (list ascii);    (* path to contents *)
  unwritable : gset string;            (* paths fopen_s cannot open for writing *)
  text_crlf : bool;                    (* a text-mode stream stores LF as CR LF *)
  console : list msg;                  (* what was printed, oldest first *)
  opened_w : list string               (* files opened for writing, oldest first *)
}.

Definition print (w : World) (out : list msg) : World :=
  mkWorld (files w) (unwritable w) (text_crlf w) (console w ++ out) (opened_w w).

(** [FS_FileExists(path)]. *)
Definition FS_FileExists (w : World) (path : string) : bool :=
  bool_decide (is_Some (files w !! path)).

(** ** ReadFile *)

(** The field loop of [ReadFile] for one line: [csvtok] until it returns
    NULL, every token pushed on [row], then the rest [nt] pushed as well. *)
Fixpoint read_fields (fuel : nat) (m : mem) (nt : ptr) (row : list cptr)
    : res (mem * list cptr) :=
  match fuel with
  | 0 => NoFuel
  | S fuel' =>
      let* (tk, m', nt') := csvtok m nt in
      match tk with
      | Some p => read_fields fuel' m' nt' (row ++ [InBuf p])
      | None => Ret (m', row ++ [InBuf nt'])
      end
  end.

(** [v.resize(n)] with value-initialised new elements [x]. *)
Definition resize {A : Type} (n : nat) (x : A) (v : list A) : list A :=
  take n v ++ replicate (n - length v) x.

Inductive load_result : Type :=
| Loaded (m : mem) (cells : list (list cptr))
| ShapeError (i found expected : nat).

Definition CRLF : list ascii := [CR; LF].

(** The line loop [for (int i = 0; tok; i++)] of [ReadFile]. *)
Fixpoint read_lines (fuel : nat) (m : mem) (cells : list (list cptr))
    (tok : option ptr) (context : ptr) (i : nat) : res load_result :=
  match tok with
  | None => Ret (Loaded m cells)
  | Some tk =>
      match fuel with
      | 0 => NoFuel
      | S fuel' =>
          let cells1 := resize (i + 1) [] cells in
          let last := length cells1 - 1 in
          let* row := at_ cells1 last in
          let* (m1, row1) := read_fields (S (length m)) m tk row in
          let cells2 := <[last := row1]> cells1 in
          let* row0 := at_ cells2 0 in
          if negb (length row1 =? length row0) then
            Ret (ShapeError i (length row1) (length row0))
          else
            let* (tok', m2, context') := strtok_c m1 None CRLF context in
            read_lines fuel' m2 cells2 tok' context' (S i)
      end
  end.

Definition name_literal : list ascii := list_ascii_of_string "name".

(** [ReadFile(path, loadflags)]: the return value, the table and the world
    afterwards.  A file is read whole, so [fread] delivers nothing exactly
    for an empty file; a read that fails on a file with contents is not
    modelled.  The table has one buffer: the load is that of a table which
    holds no cells yet, as the constructors leave it (in the code a second
    load leaves the old views in the old block, which is not freed).
    [fuel] bounds the passes of [PruneRows]. *)
Definition ReadFile (fuel : nat) (t : CSVStaticTable) (path : string)
    (loadflags : Z) (w : World) : res (Z * CSVStaticTable * World) :=
  let w0 := print w [Printf_Loading path] in
  match files w !! path with
  | None =>
      Ret (1%Z, mkTable None (cells t), print w0 [Error_OpenRead path])
  | Some content =>
      let size := length content in
      let m := content ++ replicate (size + 1 - length content) NUL in
      let read := length content in
      if read =? 0 then Ret (3%Z, mkTable (Some m) (cells t), w0)
      else
        let* (tok, m1, context) := strtok_c m (Some 0) CRLF 0 in
        let* r := read_lines (S (length m)) m1 (cells t) tok context 0 in
        match r with
        | ShapeError i found expected =>
            Ret (2%Z, mkTable None [],
                 print w0 [Error_FieldCount i found expected])
        | Loaded m2 cells2 =>
            let t1 := mkTable (Some m2) cells2 in
            let* (_, t2, out1) :=
              if flag_set loadflags CSV_ST_PRUNE_EMPTY then PruneColumns t1
              else Ret (0%Z, t1, []) in
            let* (_, t3, out2) := PruneRows fuel loadflags t2 in
            let t4 :=
              if flag_set loadflags CSV_ST_HEADERLESS_SINGLEFIELD
              then mkTable (buf t3) ([Literal name_literal] :: cells t3)
              else t3 in
            Ret (0%Z, t4, print w0 (out1 ++ out2))
        end
  end.

(** The constructor [CSVStaticTable(path, loadflags)]. *)
Definition CSVStaticTable_load (fuel : nat) (path : string) (loadflags : Z)
    (w : World) : res (CSVStaticTable * World) :=
  let* (_, t, w') := ReadFile fuel CSVStaticTable_new path loadflags w in
  Ret (t, w').

(** ** PrintTable and WriteFile *)

Definition needs_quotes (s : list ascii) : bool :=
  existsb (fun c => Ascii.eqb c COMMA || Ascii.eqb c QUOTE) s.

Definition escape (s : list ascii) : list ascii :=
  flat_map (fun c => if Ascii.eqb c QUOTE then [QUOTE; QUOTE] else [c]) s.

Definition print_field (t : CSVStaticTable) (p : cptr) : res (list ascii) :=
  let* s := str_of t p in
  if needs_quotes s then Ret ([QUOTE] ++ escape s ++ [QUOTE]) else Ret s.

Fixpoint print_fields (t : CSVStaticTable) (row : list cptr)
    : res (list ascii) :=
  match row with
  | [] => Ret []
  | p :: rest =>
      let* s := print_field t p in
      let* s' := print_fields t rest in
      Ret (s ++ (match rest with [] => [] | _ => [COMMA] end) ++ s')
  end.

Definition decimal (n : nat) : list ascii :=
  list_ascii_of_string (NilZero.string_of_uint (Nat.to_uint n)).

Fixpoint print_rows (t : CSVStaticTable) (include_debug_info : bool)
    (r : nat) (rows : list (list cptr)) : res (list ascii) :=
  match rows with
  | [] => Ret []
  | row :: rows' =>
      let dbg :=
        if include_debug_info
        then list_ascii_of_string "[" ++ decimal r ++ list_ascii_of_string "]: "
        else [] in
      let* s := print_fields t row in
      let* s' := print_rows t include_debug_info (S r) rows' in
      Ret (dbg ++ s ++ [LF] ++ s')
  end.

(** [PrintTable(h, include_debug_info)]: the characters written to [h]. *)
Definition PrintTable (t : CSVStaticTable) (include_debug_info : bool)
    : res (list ascii) :=
  print_rows t include_debug_info 0 (cells t).

(** What a stream opened in text mode, as [WriteFile] does, stores for the
    characters written to it. *)
Definition text_mode (w : World) (out : list ascii) : list ascii :=
  if text_crlf w
  then flat_map (fun c => if Ascii.eqb c LF then [CR; LF] else [c]) out
  else out.

(** [WriteFile(path, overwrite)]: the return value and the world afterwards. *)
Definition WriteFile (t : CSVStaticTable) (path : string) (overwrite : bool)
    (w : World) : res (Z * World) :=
  if FS_FileExists w path && negb overwrite then
    Ret (1%Z, print w [Error_Exists path])
  else if bool_decide (path ∈ unwritable w) then
    Ret (2%Z, print w [Error_OpenWrite path])
  else
    let* out := PrintTable t false in
    Ret (0%Z,
         mkWorld (<[path := text_mode w out]> (files w)) (unwritable w)
           (text_crlf w) (console w) (opened_w w ++ [path])).

(** ** Reading a table back as values *)

Fixpoint row_strings (t : CSVStaticTable) (row : list cptr)
    : res (list string) :=
  match row with
  | [] => Ret []
  | p :: rest =>
      let* s := str_of t p in
      let* ss := row_strings t rest in
      Ret (string_of_list_ascii s :: ss)
  end.

Fixpoint rows_strings (t : CSVStaticTable) (rows : list (list cptr))
    : res (list (list string)) :=
  match rows with
  | [] => Ret []
  | row :: rows' =>
      let* r := row_strings t row in
      let* rs := rows_strings t rows' in
      Ret (r :: rs)
  end.

(** Every row of the grid, header first, each field as the string its
    reference points to. *)
Definition contents (t : CSVStaticTable) : res (list (list string)) :=
  rows_strings t (cells t).

(** The string [CellValue(row_index, field_index)] points to. *)
Definition cell (t : CSVStaticTable) (row_index field_index : nat)
    : res string :=
  let* p := CellValue t row_index field_index in
  let* s := str_of t p in
  Ret (string_of_list_ascii s).

(** ** The fields a line of the input yields *)

(** The field references that the line [i] lines after the one at [tok]
    yields, when the lines before it are tokenized first as [ReadFile] does
    but no field count is compared; [Ret None] when the input has no such
    line. *)
Fixpoint line_fields (i : nat) (m : mem) (tok : ptr) (context : ptr)
    : res (option (list cptr)) :=
  let* (m1, row) := read_fields (S (length m)) m tok [] in
  match i with
  | 0 => Ret (Some row)
  | S i' =>
      let* (tok', m2, context') := strtok_c m1 None CRLF context in
      match tok' with
      | Some tk => line_fields i' m2 tk context'
      | None => Ret None
      end
  end.

(** The same from the bytes of a file: line [i] of the file. *)
Definition file_line_fields (content : list ascii) (i : nat)
    : res (option (list cptr)) :=
  let* (tok, m, context) := strtok_c (content ++ [NUL]) (Some 0) CRLF 0 in
  match tok with
  | Some tk => line_fields i m tk context
  | None => Ret None
  end.

(** ** Running the program on a file *)

Definition bytes (s : string) : list ascii := list_ascii_of_string s.

(** A world holding one file, with an empty console. *)
Definition disk (path : string) (content : list ascii) (crlf : bool) : World :=
  mkWorld {[ path := content ]} ∅ crlf [] [].

Definition returned {B C : Type} (r : res (Z * B * C)) : res Z :=
  let* (n, _, _) := r in Ret n.

Definition table_after {A C : Type} (r : res (A * CSVStaticTable * C))
    : res CSVStaticTable :=
  let* (_, t, _) := r in Ret t.

Definition printed {A B : Type} (r : res (A * B * World)) : res (list msg) :=
  let* (_, _, w) := r in Ret (console w).

(** [WriteFile(path, true)], then a fresh table loaded from [path]. *)
Definition write_then_load (fuel : nat) (t : CSVStaticTable) (path : string)
    (loadflags : Z) (w : World) : res (Z * CSVStaticTable * World) :=
  let* (_, w1) := WriteFile t path true w in
  ReadFile fuel CSVStaticTable_new path loadflags w1.

(** ** Sample files *)

Definition quoted (s : string) : list ascii := [QUOTE] ++ bytes s ++ [QUOTE].

(** One column, both fields in quotes: h, then a,b. *)
Definition csv_quoted_column : list ascii :=
  quoted "h" ++ CRLF ++ quoted "a,b" ++ CRLF.

(** Header h1,h2; data row a and b, the b in quotes at the end of the line. *)
Definition csv_quoted_last : list ascii :=
  bytes "h1,h2" ++ CRLF ++ bytes "a," ++ quoted "b" ++ CRLF.

(** Header h1,h2; data row b and a, the b in quotes before the comma. *)
Definition csv_quoted_first : list ascii :=
  bytes "h1,h2" ++ CRLF ++ quoted "b" ++ bytes ",a" ++ CRLF.

(** Header h; the only field of the data row is a, a quote, b. *)
Definition csv_inner_quote : list ascii :=
  bytes "h" ++ CRLF ++ bytes "a" ++ [QUOTE] ++ bytes "b" ++ CRLF.

(** The three data rows of the row-pruning example under a header. *)
Definition csv_prune_rows : list ascii :=
  bytes "h1,h2,h3" ++ CRLF ++ bytes "a,," ++ CRLF ++ bytes ",," ++ CRLF
  ++ bytes "#comment,," ++ CRLF.

(** The same rows with the comment row before the empty row. *)
Definition csv_prune_rows_swapped : list ascii :=
  bytes "h1,h2,h3" ++ CRLF ++ bytes "a,," ++ CRLF ++ bytes "#comment,,"
  ++ CRLF ++ bytes ",," ++ CRLF.

(** Header [name,,age] and the data row [x,ignored,30]. *)
Definition csv_unnamed_column : list ascii :=
  bytes "name,,age" ++ CRLF ++ bytes "x,ignored,30" ++ CRLF.

(** [h / a]. *)
Definition csv_one_row : list ascii :=
  bytes "h" ++ CRLF ++ bytes "a" ++ CRLF.

(** [h1,h2 / a]: a data row one field short. *)
Definition csv_short_row : list ascii :=
  bytes "h1,h2" ++ CRLF ++ bytes "a" ++ CRLF.

(** [alpha / beta] with LF and with CR LF line ends. *)
Definition csv_names_lf : list ascii :=
  bytes "alpha" ++ [LF] ++ bytes "beta" ++ [LF].

Definition csv_names_crlf : list ascii :=
  bytes "alpha" ++ CRLF ++ bytes "beta" ++ CRLF.

(** [#id, / #c, / ,]: the header starts with a hash, a comment row and an
    empty row follow. *)
Definition csv_hash_header : list ascii :=
  bytes "#id," ++ CRLF ++ bytes "#c," ++ CRLF ++ bytes "," ++ CRLF.

(** The table [ReadFile] builds from a file, no flags given; the fresh table
    when it does not run to completion. *)
Definition loaded (content : list ascii) : CSVStaticTable :=
  match ReadFile 0 CSVStaticTable_new "in.csv" 0 (disk "in.csv" content true)
  with
  | Ret (_, t, _) => t
  | _ => CSVStaticTable_new
  end.

(** Header h and two comment rows in a row. *)
Definition csv_two_comments : list ascii :=
  bytes "h" ++ CRLF ++ bytes "#a" ++ CRLF ++ bytes "#b" ++ CRLF.

(** Header [name,,age] and the data rows [x,ignored,30] and [y,,40]. *)
Definition csv_unnamed_column_2 : list ascii :=
  bytes "name,,age" ++ CRLF ++ bytes "x,ignored,30" ++ CRLF
  ++ bytes "y,,40" ++ CRLF.


(** ** Predicates used to state properties *)

(** Is the field reference [p] the name of a column: does it point to a
    character other than NUL? *)
Definition named (t : CSVStaticTable) (p : cptr) : bool :=
  match deref t p with
  | Ret x => negb (Ascii.eqb x NUL)
  | _ => false
  end.

(** A buffer whose last byte is the terminator. *)
Definition terminated (m : mem) : Prop := exists m0, m = m0 ++ [NUL].

(** A field reference that can be followed: a view lies inside a terminated
    buffer held by the table. *)
Definition valid (t : CSVStaticTable) (p : cptr) : Prop :=
  match p with
  | InBuf q => exists m, buf t = Some m /\ terminated m /\ q < length m
  | Literal _ => True
  end.

(** The emptiness test of [PruneRows] on a row taken by itself: is there a
    field of non-zero length among the fields [c .. c+n-1] of [row]? *)
Fixpoint fields_content (t : CSVStaticTable) (row : list cptr) (c n : nat)
    : res bool :=
  match n with
  | 0 => Ret false
  | S n' =>
      let* p := at_ row c in
      let* len := strlen t p in
      if negb (len =? 0) then Ret true else fields_content t row (S c) n'
  end.

(** A row with content in one of its first [n] fields. *)
Definition row_has_content (t : CSVStaticTable) (n : nat) (row : list cptr)
    : bool :=
  match fields_content t row 0 n with
  | Ret b => b
  | _ => false
  end.

(** ** The text of a table *)

(** What [PrintTable] writes for a field that holds the string [s]. *)
Definition field_text (s : list ascii) : list ascii :=
  if needs_quotes s then [QUOTE] ++ escape s ++ [QUOTE] else s.

(** What it writes for the fields of a row, and for the rows of a table as
    a stream that stores LF as CR LF keeps it. *)
Fixpoint row_text (ss : list (list ascii)) : list ascii :=
  match ss with
  | [] => []
  | s :: rest =>
      field_text s ++ (match rest with [] => [] | _ => [COMMA] end)
      ++ row_text rest
  end.

Fixpoint file_text (rows : list (list (list ascii))) : list ascii :=
  match rows with
  | [] => []
  | ss :: rows' => row_text ss ++ CRLF ++ file_text rows'
  end.

(** The string [s], terminated, lies at offset [q] of [m]. *)
Definition str_in (m : mem) (q : ptr) (s : list ascii) : Prop :=
  exists a b, m = a ++ s ++ NUL :: b /\ length a = q.

(** The table [t] holds the strings [rows], field by field. *)
Definition holds (t : CSVStaticTable) (rows : list (list (list ascii)))
    : Prop :=
  Forall2 (Forall2 (fun p s => str_of t p = Ret s)) (cells t) rows.

(** Header h1,h2; data row a,b and c, the first field in quotes. *)
Definition csv_comma_field : list ascii :=
  bytes "h1,h2" ++ CRLF ++ quoted "a,b" ++ bytes ",c" ++ CRLF.

(** ** str.cpp *)

(** [Str_EndsWith(str, substr)], each argument given as the memory from its
    pointer on.  The result of [strstr] is compared with
    [str + strlen(str) - strlen(substr)]; pointers into [str] are compared
    as offsets, and NULL equals none of them. *)
Definition Str_EndsWith (str substr : list ascii) : res bool :=
  let* d := cstring substr in
  let* p := strstr str d in
  let* s := cstring str in
  Ret (match p with
       | Some i =>
           (Z.of_nat i =? Z.of_nat (length s) - Z.of_nat (length d))%Z
       | None => false
       end).


(** [toupper] in the C locale: only the letters a to z change. *)
Definition toupper (c : ascii) : ascii :=
  let n := nat_of_ascii c in
  if (97 <=? n) && (n <=? 122) then ascii_of_nat (n - 32) else c.

(** An [unsigned int] of 32 bits. *)
Definition wrap32 (z : Z) : Z := (z mod 2 ^ 32)%Z.

(** The first inner loop of [stristr]: advance [start] to a character that
    matches the first one of the pattern.  [Ret None] is the [return(NULL)]
    inside the loop. *)
Fixpoint stristr_find (fuel : nat) (s1 s2 : mem) (start : ptr)
    (slen plen : Z) : res (option (ptr * Z)) :=
  match fuel with
  | 0 => NoFuel
  | S fuel =>
      let* a := load s1 start in
      let* b := load s2 0 in
      if negb (Ascii.eqb (toupper a) (toupper b)) then
        let start := S start in
        let slen := wrap32 (slen - 1) in
        if (slen <? plen)%Z then Ret None
        else stristr_find fuel s1 s2 start slen plen
      else Ret (Some (start, slen))
  end.

(** The second inner loop: compare from [sptr] and [pptr] on.  [true] is
    the [return (start)] at the end of the pattern, [false] the exit of the
    loop at a mismatch. *)
Fixpoint stristr_match (fuel : nat) (s1 s2 : mem) (sptr pptr : ptr)
    : res bool :=
  match fuel with
  | 0 => NoFuel
  | S fuel =>
      let* a := load s1 sptr in
      let* b := load s2 pptr in
      if Ascii.eqb (toupper a) (toupper b) then
        let sptr := S sptr in
        let pptr := S pptr in
        let* c := load s2 pptr in
        if Ascii.eqb NUL c then Ret true
        else stristr_match fuel s1 s2 sptr pptr
      else Ret false
  end.

(** The [for] loop of [stristr]. *)
Fixpoint stristr_loop (fuel : nat) (s1 s2 : mem) (start : ptr)
    (slen plen : Z) : res (option ptr) :=
  match fuel with
  | 0 => NoFuel
  | S fuel' =>
      if (slen >=? plen)%Z then
        let* f := stristr_find fuel s1 s2 start slen plen in
        match f with
        | None => Ret None
        | Some (start, slen) =>
            let* found := stristr_match fuel s1 s2 start 0 in
            if found then Ret (Some start)
            else stristr_loop fuel' s1 s2 (S start) (wrap32 (slen - 1)) plen
        end
      else Ret None
  end.

(** [stristr(s1, s2)], each argument given as the memory from its pointer
    on; the result is an offset into [s1], [None] is NULL. *)
Definition stristr (fuel : nat) (s1 s2 : mem) : res (option ptr) :=
  let* s := cstring s1 in
  let* p := cstring s2 in
  stristr_loop fuel s1 s2 0
    (wrap32 (Z.of_nat (length s))) (wrap32 (Z.of_nat (length p))).

(** The pattern [p] heads [l] when case is ignored. *)
Definition ci_prefix (p l : list ascii) : Prop :=
  (toupper <$> p) `prefix_of` (toupper <$> l).
(** * Properties *)

(** ** The result monad *)

Lemma bind_Ret {A B : Type} (x : res A) (f : A -> res B) (b : B) :
  bind x f = Ret b -> exists a, x = Ret a /\ f a = Ret b.
Proof. destruct x; simpl; intros H; try discriminate. eauto. Qed.

Ltac bind_inv H :=
  let a := fresh "a" in
  let Ha := fresh "Ha" in
  let H' := fresh "H" in
  apply bind_Ret in H; destruct H as (a & Ha & H'); rename H' into H.

(** ** The buffer keeps its size *)

Lemma store_length m p x m' : store m p x = Ret m' -> length m' = length m.
Proof.
  unfold store. case_decide; intros Hs; inversion Hs; subst.
  apply length_insert.
Qed.

Lemma store_bound m p x m' : store m p x = Ret m' -> p < length m.
Proof. unfold store. case_decide; [auto | discriminate]. Qed.

Lemma wipe_spec d : forall m c m' c',
  wipe m c d = Ret (m', c') ->
  length m' = length m /\ c' = c + length d /\ (d <> [] -> c' <= length m).
Proof.
  induction d as [|x d IH]; simpl; intros m c m' c' H.
  - inversion H; subst. split; [reflexivity|]. split; [lia | congruence].
  - bind_inv H.
    pose proof (store_length _ _ _ _ Ha) as Hl.
    pose proof (store_bound _ _ _ _ Ha) as Hb.
    destruct (IH _ _ _ _ H) as (Hl' & Hc & Hd).
    split; [congruence|]. split; [lia|]. intros _.
    destruct d as [|y d]; [simpl in Hc; lia|].
    rewrite <- Hl. apply Hd. discriminate.
Qed.

Lemma strtok_c_token m s d ctx tok m' ctx' :
  d <> [] ->
  strtok_c m s d ctx = Ret (Some tok, m', ctx') ->
  length m' = length m /\ tok + length d <= ctx' /\ ctx' <= length m /\
  tok = match s with Some p => p | None => ctx end.
Proof.
  intros Hd H. unfold strtok_c in H. bind_inv H.
  destruct a as [k|]; [|discriminate].
  bind_inv H. destruct a as [m1 c1]. inversion H; subst.
  destruct (wipe_spec _ _ _ _ _ Ha0) as (Hl & Hc & Hb).
  split; [exact Hl|]. split; [lia|]. split; [auto|reflexivity].
Qed.

Lemma strtok_c_length m s d ctx tok m' ctx' :
  strtok_c m s d ctx = Ret (tok, m', ctx') -> length m' = length m.
Proof.
  intros H. unfold strtok_c in H. bind_inv H.
  destruct a as [k|].
  - bind_inv H. destruct a as [m1 c1]. inversion H; subst.
    apply (wipe_spec _ _ _ _ _ Ha0).
  - inversion H; subst. reflexivity.
Qed.

Lemma csvtok_loop_length fuel : forall m c t m' c',
  csvtok_loop fuel m c t = Ret (m', c') -> length m' = length m.
Proof.
  induction fuel as [|fuel IH]; simpl; intros m c t m' c' H; [discriminate|].
  bind_inv H. bind_inv H. bind_inv H.
  pose proof (store_length _ _ _ _ Ha0) as Hl.
  destruct (Ascii.eqb a1 QUOTE).
  - bind_inv H. destruct (Ascii.eqb a2 QUOTE).
    + rewrite (IH _ _ _ _ _ H). exact Hl.
    + bind_inv H. inversion H; subst.
      rewrite (store_length _ _ _ _ Ha3). exact Hl.
  - rewrite (IH _ _ _ _ _ H). exact Hl.
Qed.

Lemma csvtok_length m ctx tk m' ctx' :
  csvtok m ctx = Ret (tk, m', ctx') -> length m' = length m.
Proof.
  unfold csvtok. intros H. bind_inv H.
  destruct (negb (Ascii.eqb a QUOTE)).
  - eapply strtok_c_length; eauto.
  - bind_inv H. destruct a0 as [m1 c1]. bind_inv H.
    destruct a0 as [[o m2] c2]. inversion H; subst.
    rewrite (strtok_c_length _ _ _ _ _ _ _ Ha1).
    eapply csvtok_loop_length; eauto.
Qed.

Lemma read_fields_length fuel : forall m nt row m' row',
  read_fields fuel m nt row = Ret (m', row') -> length m' = length m.
Proof.
  induction fuel as [|fuel IH]; simpl; intros m nt row m' row' H;
    [discriminate|].
  bind_inv H. destruct a as [[tk m1] nt1].
  pose proof (csvtok_length _ _ _ _ _ Ha) as Hl.
  destruct tk as [p|].
  - rewrite (IH _ _ _ _ _ H). exact Hl.
  - inversion H; subst. exact Hl.
Qed.

(** ** The line loop stops at the first row of a different size *)

Lemma resize_next {A : Type} (x : A) (v : list A) :
  resize (length v + 1) x v = v ++ [x].
Proof.
  unfold resize. rewrite firstn_all2 by lia.
  replace (length v + 1 - length v) with 1 by lia. reflexivity.
Qed.

(** One pass of the line loop when the grid holds the [i] rows read so far:
    the new row starts empty and is appended. *)
Lemma read_lines_step fuel m (cells : list (list cptr)) tk context :
  read_lines (S fuel) m cells (Some tk) context (length cells) =
  let* (m1, row1) := read_fields (S (length m)) m tk [] in
  let* row0 := at_ (cells ++ [row1]) 0 in
  if negb (length row1 =? length row0) then
    Ret (ShapeError (length cells) (length row1) (length row0))
  else
    let* (tok', m2, context') := strtok_c m1 None CRLF context in
    read_lines fuel m2 (cells ++ [row1]) tok' context' (S (length cells)).
Proof.
  cbn [read_lines]. rewrite resize_next, length_app. cbn [length].
  replace (length cells + 1 - 1) with (length cells + 0) by lia.
  unfold at_ at 1. rewrite lookup_app_r by lia.
  replace (length cells + 0 - length cells) with 0 by lia.
  cbn [lookup list_lookup bind].
  destruct (read_fields (S (length m)) m tk []) as [[m1 row1]| |];
    cbn [bind]; try reflexivity.
  rewrite insert_app_r. reflexivity.
Qed.

Lemma read_lines_mismatch k : forall fuel m r0 rest tk context row,
  length m < fuel + context -> context <= length m ->
  line_fields k m tk context = Ret (Some row) ->
  length row <> length r0 ->
  exists j found rowj,
    j <= k /\ found <> length r0 /\
    line_fields j m tk context = Ret (Some rowj) /\ length rowj = found /\
    read_lines fuel m (r0 :: rest) (Some tk) context (length (r0 :: rest))
    = Ret (ShapeError (length (r0 :: rest) + j) found (length r0)).
Proof.
  induction k as [|k IH]; intros fuel m r0 rest tk context row Hf Hc Hk Hne;
    (destruct fuel as [|fuel]; [lia|]);
    rewrite read_lines_step; cbn [line_fields] in Hk; bind_inv Hk;
    destruct a as [m1 row1]; rewrite Ha; cbn [bind app at_ lookup list_lookup].
  - inversion Hk; subst row1.
    apply Nat.eqb_neq in Hne. rewrite Hne. cbn [negb].
    apply Nat.eqb_neq in Hne.
    exists 0, (length row), row. rewrite Nat.add_0_r.
    repeat split; auto. cbn [line_fields]. rewrite Ha. reflexivity.
  - destruct (Nat.eqb_spec (length row1) (length r0)) as [He|He]; cbn [negb].
    + bind_inv Hk. destruct a as [[tok' m2] context'].
      rewrite Ha0. cbn [bind]. destruct tok' as [tk'|]; [|discriminate].
      pose proof (read_fields_length _ _ _ _ _ _ Ha) as Hl1.
      assert (Hd : CRLF <> []) by (unfold CRLF; discriminate).
      destruct (strtok_c_token _ _ _ _ _ _ _ Hd Ha0)
        as (Hl2 & Hlo & Hhi & Htk).
      cbn [length CRLF] in Hlo.
      destruct (IH fuel m2 r0 (rest ++ [row1]) tk' context' row)
        as (j & found & rowj & Hj & Hf' & Hlj & Hlen & Hrun);
        [lia | lia | exact Hk | exact Hne |].
      exists (S j), found, rowj. split; [lia|]. split; [exact Hf'|].
      split; [cbn [line_fields]; rewrite Ha; cbn [bind]; rewrite Ha0;
              exact Hlj|].
      split; [exact Hlen|].
      replace (S (length (r0 :: rest))) with (length (r0 :: rest ++ [row1]))
        by (cbn [length]; rewrite length_app; cbn [length]; lia).
      change ((r0 :: rest) ++ [row1]) with (r0 :: (rest ++ [row1])).
      rewrite Hrun. f_equal. f_equal.
      cbn [length]. rewrite length_app. cbn [length]. lia.
    + exists 0, (length row1), row1. rewrite Nat.add_0_r.
      repeat split; auto; [lia|]. cbn [line_fields]. rewrite Ha. reflexivity.
Qed.

(** C6: when some line of the file yields a number of fields different from
    that of line 0, [ReadFile] on a table with an empty grid returns 2,
    leaves the grid empty and the buffer released, and reports the first
    such line with the count found there and the count expected. *)
Theorem ReadFile_shape_error (fuel : nat) (t : CSVStaticTable)
    (path : string) (loadflags : Z) (w : World) (content : list ascii)
    (i : nat) (row0 row : list cptr) :
  cells t = [] ->
  files w !! path = Some content ->
  file_line_fields content 0 = Ret (Some row0) ->
  file_line_fields content i = Ret (Some row) ->
  length row <> length row0 ->
  exists j found rowj,
    j <= i /\
    file_line_fields content j = Ret (Some rowj) /\
    length rowj = found /\ found <> length row0 /\
    ReadFile fuel t path loadflags w =
      Ret (2%Z, mkTable None [],
           print (print w [Printf_Loading path])
             [Error_FieldCount j found (length row0)]).
Proof.
  intros Hcells Hfile H0 Hi Hne.
  unfold ReadFile. rewrite Hfile, Hcells.
  replace (length content + 1 - length content) with 1 by lia.
  change (replicate 1 NUL) with [NUL].
  unfold file_line_fields in H0, Hi.
  destruct (strtok_c (content ++ [NUL]) (Some 0) CRLF 0)
    as [[[tok m1] context]| |] eqn:Htok; cbn [bind] in H0, Hi;
    try discriminate.
  destruct tok as [tk|]; [|discriminate].
  assert (Hd : CRLF <> []) by (unfold CRLF; discriminate).
  destruct (strtok_c_token _ _ _ _ _ _ _ Hd Htok) as (Hl1 & Hlo & Hhi & Htk).
  cbn [length CRLF] in Hlo.
  destruct (length content =? 0) eqn:Hz.
  { apply Nat.eqb_eq in Hz. rewrite length_app in Hhi. cbn [length] in Hhi.
    lia. }
  cbn [bind].
  rewrite (read_lines_step _ _ [] _ _ : read_lines _ _ [] _ _ 0 = _).
  destruct i as [|i].
  { rewrite H0 in Hi. inversion Hi; subst. contradiction. }
  cbn [line_fields] in H0, Hi.
  rewrite Hl1 in *.
  destruct (read_fields (S (length (content ++ [NUL]))) m1 tk [])
    as [[m1' r1]| |] eqn:Hr; cbn [bind] in H0, Hi; try discriminate.
  inversion H0; subst r1.
  cbn [bind app at_ lookup list_lookup]. rewrite Nat.eqb_refl. cbn [negb].
  destruct (strtok_c m1' None CRLF context)
    as [[[tok' m2] context']| |] eqn:Htok'; cbn [bind] in Hi;
    try discriminate.
  destruct tok' as [tk'|]; [|discriminate].
  pose proof (read_fields_length _ _ _ _ _ _ Hr) as Hl2.
  destruct (strtok_c_token _ _ _ _ _ _ _ Hd Htok') as (Hl3 & Hlo' & Hhi' & _).
  cbn [length CRLF] in Hlo'.
  destruct (read_lines_mismatch i (length (content ++ [NUL])) m2 row0 []
              tk' context' row)
    as (j & found & rowj & Hj & Hf & Hlj & Hlen & Hrun);
    [lia | lia | exact Hi | exact Hne |].
  exists (S j), found, rowj. split; [lia|].
  split.
  { unfold file_line_fields. rewrite Htok. cbn [bind line_fields].
    rewrite Hl1, Hr. cbn [bind]. rewrite Htok'. exact Hlj. }
  split; [exact Hlen|]. split; [exact Hf|].
  cbn [bind]. cbn [length] in Hrun. cbn [length]. rewrite Hrun.
  reflexivity.
Qed.

(** ** Row removal keeps the header *)






(** ** WriteFile *)

(** C9: [WriteFile] on an existing path with [overwrite] false prints the
    error and returns 1 with every file as it was and nothing opened for
    writing; a call on that path that changes a file or opens one was made
    with [overwrite] true. *)
Theorem WriteFile_refuses_overwrite (t : CSVStaticTable) (path : string)
    (w : World) :
  is_Some (files w !! path) ->
  (exists w',
     WriteFile t path false w = Ret (1%Z, w') /\
     files w' = files w /\ opened_w w' = opened_w w /\
     console w' = console w ++ [Error_Exists path]) /\
  (forall overwrite n w',
     WriteFile t path overwrite w = Ret (n, w') ->
     files w' <> files w \/ opened_w w' <> opened_w w ->
     overwrite = true).
Proof.
  intros Hex. split.
  - unfold WriteFile, FS_FileExists.
    rewrite bool_decide_eq_true_2 by exact Hex. cbn [andb negb].
    eexists. split; [reflexivity|]. cbn. auto.
  - intros overwrite n w' H Hch. unfold WriteFile, FS_FileExists in H.
    destruct overwrite; [reflexivity|].
    rewrite bool_decide_eq_true_2 in H by exact Hex. cbn [andb negb] in H.
    inversion H; subst. cbn in Hch. destruct Hch as [Hch|Hch]; congruence.
Qed.

(** ** The program on the sample files *)

(** C1: a quoted field that ends its line is followed by one more, empty
    field.  When every line ends so, the load succeeds with one column too
    many, the cell beyond the fields of the file reading as the empty
    string; when only the data line ends so, the load fails with the
    field-count error.  The same quoted field before a comma is read back as
    written. *)
Theorem quoted_last_field_gains_empty_field :
  (let r := ReadFile 0 CSVStaticTable_new "in.csv" 0
              (disk "in.csv" csv_quoted_column true) in
   returned r = Ret 0%Z /\
   (let* t := table_after r in contents t)
     = Ret [["h"; ""]; ["a,b"; ""]]%string /\
   (let* t := table_after r in FieldCount t) = Ret 2 /\
   (let* t := table_after r in cell t 0 1) = Ret ""%string) /\
  (let r := ReadFile 0 CSVStaticTable_new "in.csv" 0
              (disk "in.csv" csv_quoted_last true) in
   returned r = Ret 2%Z /\
   table_after r = Ret (mkTable None []) /\
   printed r = Ret [Printf_Loading "in.csv"; Error_FieldCount 1 3 2]) /\
  (let r := ReadFile 0 CSVStaticTable_new "in.csv" 0
              (disk "in.csv" csv_quoted_first true) in
   returned r = Ret 0%Z /\
   (let* t := table_after r in contents t)
     = Ret [["h1"; "h2"]; ["b"; "a"]]%string).
Proof. vm_compute. repeat split. Qed.

(** C2: the load of [csv_inner_quote] succeeds; its table has the header
    [h] and the data row holding a, a quote, b.  [WriteFile] stores that
    field in quotes at the end of its line, and loading the written file
    fails with the field-count error and leaves no rows; where the stream
    keeps LF as it is, the written file has no line the loader recognises. *)
Theorem write_then_load_loses_quoted_last_field :
  let field := string_of_list_ascii (bytes "a" ++ [QUOTE] ++ bytes "b") in
  let written := bytes "h" ++ [LF] ++ [QUOTE] ++ bytes "a" ++ [QUOTE; QUOTE]
                 ++ bytes "b" ++ [QUOTE] ++ [LF] in
  (let r := ReadFile 0 CSVStaticTable_new "in.csv" 0
              (disk "in.csv" csv_inner_quote true) in
   returned r = Ret 0%Z /\
   table_after r = Ret (loaded csv_inner_quote)) /\
  contents (loaded csv_inner_quote) = Ret [["h"%string]; [field]] /\
  PrintTable (loaded csv_inner_quote) false = Ret written /\
  (let r := write_then_load 0 (loaded csv_inner_quote) "out.csv" 0
              (disk "in.csv" csv_inner_quote true) in
   returned r = Ret 2%Z /\
   (let* t := table_after r in contents t) = Ret [] /\
   printed r = Ret [Printf_Loading "out.csv"; Error_FieldCount 1 2 1]) /\
  (let r := write_then_load 0 (loaded csv_inner_quote) "out.csv" 0
              (disk "in.csv" csv_inner_quote false) in
   returned r = Ret 0%Z /\
   (let* t := table_after r in contents t) = Ret []).
Proof. vm_compute. repeat split. Qed.

(** C3: on the three data rows of the example with both pruning flags, the
    pass that removes the comment row, the last row, goes on to read the row
    after it: [PruneRows] leaves the grid instead of returning 2.  With the
    comment row before the empty row the same call returns 2 and keeps the
    row a. *)
Theorem PruneRows_example_out_of_bounds :
  let bits := Z.lor CSV_ST_PRUNE_EMPTY CSV_ST_PRUNE_COMMENTS in
  contents (loaded csv_prune_rows)
    = Ret [["h1"; "h2"; "h3"]; ["a"; ""; ""]; [""; ""; ""];
           ["#comment"; ""; ""]]%string /\
  (forall fuel, PruneRows (3 + fuel) bits (loaded csv_prune_rows)
                = OutOfBounds) /\
  PruneRows_body bits
    (mkTable (buf (loaded csv_prune_rows))
       (delete 2 (cells (loaded csv_prune_rows)))) 1 1%Z
    = OutOfBounds /\
  (let r := PruneRows 3 bits (loaded csv_prune_rows_swapped) in
   returned r = Ret 2%Z /\
   (let* t := table_after r in contents t)
     = Ret [["h1"; "h2"; "h3"]; ["a"; ""; ""]]%string).
Proof.
  cbv zeta. split; [vm_compute; reflexivity|].
  split; [intros fuel; vm_compute; reflexivity|].
  vm_compute. repeat split.
Qed.

(** C4: on the header [name,,age] with the one data row [x,ignored,30],
    [PruneColumns] removes the unnamed field from the header only: it
    returns 1, prints no warning, and the data row keeps its three fields. *)
Theorem PruneColumns_example_keeps_data_column :
  contents (loaded csv_unnamed_column)
    = Ret [["name"; ""; "age"]; ["x"; "ignored"; "30"]]%string /\
  (let r := PruneColumns (loaded csv_unnamed_column) in
   returned r = Ret 1%Z /\
   (let* t := table_after r in contents t)
     = Ret [["name"; "age"]; ["x"; "ignored"; "30"]]%string /\
   (let* (_, _, out) := r in Ret out) = Ret [Printf_PrunedColumns 1]).
Proof. vm_compute. repeat split. Qed.

Lemma PruneRows_loop_comments_only fuel :
  PruneRows_loop fuel CSV_ST_PRUNE_COMMENTS (loaded csv_one_row) 0 0%Z
  = NoFuel.
Proof.
  induction fuel as [|fuel IH]; [vm_compute; reflexivity|].
  cbn [PruneRows_loop].
  replace (Z.of_nat 0 <? RowCount (loaded csv_one_row))%Z with true
    by (vm_compute; reflexivity).
  replace (PruneRows_body CSV_ST_PRUNE_COMMENTS (loaded csv_one_row) 0 0%Z)
    with (Ret (loaded csv_one_row, 0, 0%Z)) by (vm_compute; reflexivity).
  cbn [bind]. exact IH.
Qed.

(** C5: with [CSV_ST_PRUNE_COMMENTS] alone and a data row that is no
    comment, a pass through the loop of [PruneRows] changes nothing, [r]
    included: no number of passes completes the call, and a load with that
    flag does not complete either. *)
Theorem PruneRows_comments_only_diverges :
  contents (loaded csv_one_row) = Ret [["h"]; ["a"]]%string /\
  PruneRows_body CSV_ST_PRUNE_COMMENTS (loaded csv_one_row) 0 0%Z
    = Ret (loaded csv_one_row, 0, 0%Z) /\
  (forall fuel,
     PruneRows fuel CSV_ST_PRUNE_COMMENTS (loaded csv_one_row) = NoFuel) /\
  (forall fuel,
     ReadFile fuel CSVStaticTable_new "in.csv" CSV_ST_PRUNE_COMMENTS
       (disk "in.csv" csv_one_row true) = NoFuel).
Proof.
  split; [vm_compute; reflexivity|]. split; [vm_compute; reflexivity|].
  assert (H : forall fuel,
    PruneRows fuel CSV_ST_PRUNE_COMMENTS (loaded csv_one_row) = NoFuel).
  { intros fuel. unfold PruneRows.
    replace (Z.land CSV_ST_PRUNE_COMMENTS
               (Z.lor CSV_ST_PRUNE_EMPTY CSV_ST_PRUNE_COMMENTS) =? 0)%Z
      with false by (vm_compute; reflexivity).
    rewrite PruneRows_loop_comments_only. reflexivity. }
  split; [exact H|].
  intros fuel. pose proof (PruneRows_loop_comments_only fuel) as Hl.
  vm_compute in Hl. vm_compute. rewrite Hl. reflexivity.
Qed.

(** ** Further runs of the pruning operations *)

(** Two comment rows in a row, both flags: the pass that removes the first
    tests the second for emptiness only and steps over it. *)
Example PruneRows_consecutive_comments :
  let bits := Z.lor CSV_ST_PRUNE_EMPTY CSV_ST_PRUNE_COMMENTS in
  let r := PruneRows 2 bits (loaded csv_two_comments) in
  returned r = Ret 1%Z /\
  (let* t := table_after r in contents t) = Ret [["h"]; ["#b"]]%string.
Proof. vm_compute. repeat split. Qed.

(** Two data rows under an unnamed column: the column is erased from the
    first data row while the second is the one tested for a value; the
    value of the first goes without warning and the second keeps its
    field. *)
Example PruneColumns_two_rows :
  let r := PruneColumns (loaded csv_unnamed_column_2) in
  returned r = Ret 1%Z /\
  (let* t := table_after r in contents t)
    = Ret [["name"; "age"]; ["x"; "30"]; ["y"; ""; "40"]]%string /\
  (let* (_, _, out) := r in Ret out) = Ret [Printf_PrunedColumns 1].
Proof. vm_compute. repeat split. Qed.

(** C7, as stated: with LF line ends the loader finds no line; the table
    holds the synthesized header and no data row. *)
Lemma headerless_lf_file_has_no_rows :
  let r := ReadFile 0 CSVStaticTable_new "in.csv"
             CSV_ST_HEADERLESS_SINGLEFIELD (disk "in.csv" csv_names_lf true) in
  returned r = Ret 0%Z /\
  (let* t := table_after r in contents t) = Ret [["name"]]%string /\
  (let* t := table_after r in contents t)
    <> Ret [["name"]; ["alpha"]; ["beta"]]%string.
Proof.
  vm_compute. split; [reflexivity|]. split; [reflexivity|]. discriminate.
Qed.

(** C7, amended: the file alpha, beta with CR LF line ends, loaded with
    [CSV_ST_HEADERLESS_SINGLEFIELD], gives the header [name] and the two
    data rows [alpha] and [beta]; with LF line ends it gives the header
    alone. *)
Theorem headerless_crlf_file_rows :
  (let r := ReadFile 0 CSVStaticTable_new "in.csv"
              CSV_ST_HEADERLESS_SINGLEFIELD
              (disk "in.csv" csv_names_crlf true) in
   returned r = Ret 0%Z /\
   (let* t := table_after r in contents t)
     = Ret [["name"]; ["alpha"]; ["beta"]]%string /\
   (let* t := table_after r in Ret (RowCount t)) = Ret 2%Z) /\
  (let r := ReadFile 0 CSVStaticTable_new "in.csv"
              CSV_ST_HEADERLESS_SINGLEFIELD
              (disk "in.csv" csv_names_lf true) in
   (let* t := table_after r in contents t) = Ret [["name"]]%string /\
   (let* t := table_after r in Ret (RowCount t)) = Ret 0%Z).
Proof. vm_compute. repeat split. Qed.

(** ** Error exits of ReadFile *)

Lemma ReadFile_empty_file fuel t path loadflags w :
  files w !! path = Some [] ->
  ReadFile fuel t path loadflags w
  = Ret (3%Z, mkTable (Some [NUL]) (cells t), print w [Printf_Loading path]).
Proof. intros H. unfold ReadFile. rewrite H. reflexivity. Qed.

Lemma ReadFile_missing_file fuel t path loadflags w :
  files w !! path = None ->
  ReadFile fuel t path loadflags w
  = Ret (1%Z, mkTable None (cells t),
         print (print w [Printf_Loading path]) [Error_OpenRead path]).
Proof. intros H. unfold ReadFile. rewrite H. reflexivity. Qed.

(** C8: of the three error exits, two release the buffer and one does not.
    A file that cannot be opened and a row of the wrong size leave [buf]
    NULL; an empty file makes [ReadFile] return 3 with the buffer it
    allocated still held by the table. *)
Theorem ReadFile_empty_file_keeps_buffer :
  (let r := ReadFile 0 CSVStaticTable_new "in.csv" 0
              (disk "in.csv" [] true) in
   returned r = Ret 3%Z /\
   (let* t := table_after r in Ret (buf t)) = Ret (Some [NUL])) /\
  (let r := ReadFile 0 CSVStaticTable_new "other.csv" 0
              (disk "in.csv" [] true) in
   returned r = Ret 1%Z /\
   (let* t := table_after r in Ret (buf t)) = Ret None) /\
  (let r := ReadFile 0 CSVStaticTable_new "in.csv" 0
              (disk "in.csv" csv_short_row true) in
   returned r = Ret 2%Z /\
   (let* t := table_after r in Ret (buf t)) = Ret None).
Proof. vm_compute. repeat split. Qed.

(** ** Instances *)

(** [csv_short_row]: line 1 yields one field, line 0 two. *)
Lemma ReadFile_shape_error_witness :
  let w := disk "in.csv" csv_short_row true in
  cells CSVStaticTable_new = [] /\
  files w !! "in.csv"%string = Some csv_short_row /\
  file_line_fields csv_short_row 0 = Ret (Some [InBuf 0; InBuf 3]) /\
  file_line_fields csv_short_row 1 = Ret (Some [InBuf 7]) /\
  length [InBuf 7] <> length [InBuf 0; InBuf 3] /\
  exists j found rowj,
    j <= 1 /\
    file_line_fields csv_short_row j = Ret (Some rowj) /\
    length rowj = found /\ found <> length [InBuf 0; InBuf 3] /\
    ReadFile 0 CSVStaticTable_new "in.csv" 0 w =
      Ret (2%Z, mkTable None [],
           print (print w [Printf_Loading "in.csv"])
             [Error_FieldCount j found (length [InBuf 0; InBuf 3])]).
Proof.
  cbv zeta.
  assert (H1 : files (disk "in.csv" csv_short_row true) !! "in.csv"%string
               = Some csv_short_row) by (vm_compute; reflexivity).
  assert (H2 : file_line_fields csv_short_row 0
               = Ret (Some [InBuf 0; InBuf 3])) by (vm_compute; reflexivity).
  assert (H3 : file_line_fields csv_short_row 1 = Ret (Some [InBuf 7]))
    by (vm_compute; reflexivity).
  assert (H4 : length [InBuf 7] <> length [InBuf 0; InBuf 3])
    by (simpl; lia).
  split; [reflexivity|].
  split; [exact H1|]. split; [exact H2|]. split; [exact H3|].
  split; [exact H4|].
  exact (ReadFile_shape_error 0 CSVStaticTable_new "in.csv" 0 _ _ 1 _ _
           eq_refl H1 H2 H3 H4).
Defined.

(** Writing over an existing file without [overwrite]. *)
Lemma WriteFile_refuses_overwrite_witness :
  let w := disk "out.csv" csv_one_row true in
  let t := loaded csv_names_crlf in
  is_Some (files w !! "out.csv"%string) /\
  (exists w',
     WriteFile t "out.csv" false w = Ret (1%Z, w') /\
     files w' = files w /\ opened_w w' = opened_w w /\
     console w' = console w ++ [Error_Exists "out.csv"]) /\
  (forall overwrite n w',
     WriteFile t "out.csv" overwrite w = Ret (n, w') ->
     files w' <> files w \/ opened_w w' <> opened_w w ->
     overwrite = true).
Proof.
  cbv zeta.
  assert (H : is_Some (files (disk "out.csv" csv_one_row true)
                       !! "out.csv"%string))
    by (exists csv_one_row; vm_compute; reflexivity).
  split; [exact H|].
  exact (WriteFile_refuses_overwrite (loaded csv_names_crlf) "out.csv" _ H).
Defined.


(** The header of [csv_hash_header] starts with a hash and its second field
    is empty; pruning with both flags removes the two data rows and keeps
    it. *)
Example header_with_hash_kept :
  let bits := Z.lor CSV_ST_PRUNE_EMPTY CSV_ST_PRUNE_COMMENTS in
  let r := PruneRows 2 bits (loaded csv_hash_header) in
  returned r = Ret 2%Z /\
  (let* t := table_after r in contents t) = Ret [["#id"; ""]]%string.
Proof. vm_compute. repeat split. Qed.

(** ** The iteration bounds of the tokenizer are never reached *)

Lemma store_no_fuel m p x : store m p x <> NoFuel.
Proof. unfold store. case_decide; discriminate. Qed.

Lemma load_no_fuel m p : load m p <> NoFuel.
Proof. unfold load. destruct (m !! p); discriminate. Qed.

Lemma bind_no_fuel {A B : Type} (x : res A) (f : A -> res B) :
  x <> NoFuel -> (forall a, x = Ret a -> f a <> NoFuel) -> bind x f <> NoFuel.
Proof. destruct x; simpl; intros Hx Hf; [auto | discriminate | congruence]. Qed.

Lemma strstr_no_fuel d : forall l, strstr l d <> NoFuel.
Proof.
  induction l as [|c l IH]; simpl.
  - destruct (starts_with d []); discriminate.
  - destruct (starts_with d (c :: l)); [discriminate|].
    destruct (Ascii.eqb c NUL); [discriminate|].
    apply bind_no_fuel; [exact IH | discriminate].
Qed.

Lemma wipe_no_fuel d : forall m c, wipe m c d <> NoFuel.
Proof.
  induction d as [|x d IH]; simpl; intros m c; [discriminate|].
  apply bind_no_fuel; [apply store_no_fuel | auto].
Qed.

Lemma strtok_c_no_fuel m s d ctx : strtok_c m s d ctx <> NoFuel.
Proof.
  unfold strtok_c. apply bind_no_fuel; [apply strstr_no_fuel|].
  intros [k|] _; [|discriminate].
  apply bind_no_fuel; [apply wipe_no_fuel|]. intros [m' c'] _. discriminate.
Qed.

Lemma load_bound m p x : load m p = Ret x -> p < length m.
Proof.
  unfold load. destruct (m !! p) eqn:H; [|discriminate].
  intros _. eapply lookup_lt_Some; eauto.
Qed.

Lemma csvtok_loop_bound fuel : forall m c t m' c',
  csvtok_loop fuel m c t = Ret (m', c') -> c < c' /\ c' < length m.
Proof.
  induction fuel as [|fuel IH]; simpl; intros m c t m' c' H; [discriminate|].
  bind_inv H. bind_inv H. bind_inv H.
  pose proof (store_length _ _ _ _ Ha0) as Hl.
  destruct (Ascii.eqb a1 QUOTE).
  - bind_inv H. pose proof (load_bound _ _ _ Ha2) as Hb.
    destruct (Ascii.eqb a2 QUOTE).
    + destruct (IH _ _ _ _ _ H). lia.
    + bind_inv H. inversion H; subst. lia.
  - destruct (IH _ _ _ _ _ H). lia.
Qed.

Lemma csvtok_loop_no_fuel fuel : forall m c t,
  1 <= fuel -> length m < c + fuel -> csvtok_loop fuel m c t <> NoFuel.
Proof.
  induction fuel as [|fuel IH]; simpl; intros m c t H1 Hf.
  - lia.
  - apply bind_no_fuel; [apply load_no_fuel|]. intros x Hx.
    pose proof (load_bound _ _ _ Hx) as Hc.
    apply bind_no_fuel; [apply store_no_fuel|]. intros m1 Hm1.
    pose proof (store_length _ _ _ _ Hm1) as Hl.
    apply bind_no_fuel; [apply load_no_fuel|]. intros y _.
    destruct (Ascii.eqb y QUOTE).
    + apply bind_no_fuel; [apply load_no_fuel|]. intros z _.
      destruct (Ascii.eqb z QUOTE).
      * apply IH; lia.
      * apply bind_no_fuel; [apply store_no_fuel | discriminate].
    + apply IH; lia.
Qed.

Lemma csvtok_no_fuel m ctx : csvtok m ctx <> NoFuel.
Proof.
  unfold csvtok. apply bind_no_fuel; [apply load_no_fuel|]. intros x Hx.
  pose proof (load_bound _ _ _ Hx) as Hb.
  destruct (negb (Ascii.eqb x QUOTE)); [apply strtok_c_no_fuel|].
  apply bind_no_fuel; [apply csvtok_loop_no_fuel; lia|].
  intros [m1 c1] _.
  apply bind_no_fuel; [apply strtok_c_no_fuel|].
  intros [[o m2] c2] _. discriminate.
Qed.

(** A token returned by [csvtok] moves the cursor forward, inside the
    buffer. *)
Lemma csvtok_progress m nt p m' nt' :
  csvtok m nt = Ret (Some p, m', nt') -> nt < nt' /\ nt' <= length m.
Proof.
  unfold csvtok. intros H. bind_inv H.
  assert (Hd : [COMMA] <> []) by discriminate.
  destruct (negb (Ascii.eqb a QUOTE)).
  - destruct (strtok_c_token _ _ _ _ _ _ _ Hd H) as (_ & Hlo & Hhi & Htk).
    cbn [length] in Hlo. lia.
  - bind_inv H. destruct a0 as [m1 c1]. bind_inv H.
    destruct a0 as [[o m2] c2]. inversion H; subst.
    destruct (csvtok_loop_bound _ _ _ _ _ _ Ha0) as [Hlt Hlen].
    pose proof (csvtok_loop_length _ _ _ _ _ _ Ha0) as Hl.
    destruct o as [q|].
    + destruct (strtok_c_token _ _ _ _ _ _ _ Hd Ha1) as (_ & Hlo & Hhi & Htk).
      cbn [length] in Hlo. lia.
    + unfold strtok_c in Ha1. bind_inv Ha1. destruct a0; [|inversion Ha1; lia].
      bind_inv Ha1. destruct a0. discriminate.
Qed.

Lemma read_fields_no_fuel fuel : forall m nt row,
  1 <= fuel -> length m < fuel + nt -> read_fields fuel m nt row <> NoFuel.
Proof.
  induction fuel as [|fuel IH]; intros m nt row H1 Hf; [lia|].
  cbn [read_fields]. apply bind_no_fuel; [apply csvtok_no_fuel|].
  intros [[tk m1] nt1] Htk. destruct tk as [p|]; [|discriminate].
  destruct (csvtok_progress _ _ _ _ _ Htk) as [Hlt Hle].
  pose proof (csvtok_length _ _ _ _ _ Htk) as Hl.
  apply IH; lia.
Qed.

Lemma read_lines_no_fuel fuel : forall m cells tok context i,
  context <= length m -> length m < fuel + context ->
  read_lines fuel m cells tok context i <> NoFuel.
Proof.
  induction fuel as [|fuel IH]; intros m cells tok context i Hc Hf; [lia|].
  cbn [read_lines]. destruct tok as [tk|]; [|discriminate].
  apply bind_no_fuel; [unfold at_; destruct (_ !! _); discriminate|].
  intros row _.
  apply bind_no_fuel; [apply read_fields_no_fuel; lia|].
  intros [m1 row1] Hr. pose proof (read_fields_length _ _ _ _ _ _ Hr) as Hl.
  apply bind_no_fuel; [unfold at_; destruct (_ !! _); discriminate|].
  intros row0 _.
  destruct (negb (length row1 =? length row0)); [discriminate|].
  apply bind_no_fuel; [apply strtok_c_no_fuel|].
  intros [[tok' m2] context'] Ht.
  destruct tok' as [tk'|].
  - assert (Hd : CRLF <> []) by (unfold CRLF; discriminate).
    destruct (strtok_c_token _ _ _ _ _ _ _ Hd Ht) as (Hl2 & Hlo & Hhi & Htk).
    cbn [length CRLF] in Hlo. apply IH; lia.
  - destruct fuel; discriminate.
Qed.

(** ** Which loops of the table can fail to end *)

Lemma at_no_fuel {A : Type} (v : list A) i : at_ v i <> NoFuel.
Proof. unfold at_. destruct (v !! i); discriminate. Qed.

Lemma erase_no_fuel {A : Type} (v : list A) i : erase v i <> NoFuel.
Proof. unfold erase. case_decide; discriminate. Qed.

Lemma erase_Ret {A : Type} (v : list A) i v' :
  erase v i = Ret v' -> i < length v /\ S (length v') = length v.
Proof.
  unfold erase. case_decide as Hi; [|discriminate].
  intros Hv. inversion Hv; subst. split; [exact Hi|].
  rewrite length_delete by (apply lookup_lt_is_Some; exact Hi). lia.
Qed.

Lemma cstring_no_fuel l : cstring l <> NoFuel.
Proof.
  induction l as [|c l IH]; simpl; [discriminate|].
  destruct (Ascii.eqb c NUL); [discriminate|].
  apply bind_no_fuel; [exact IH | discriminate].
Qed.

Lemma str_of_no_fuel t p : str_of t p <> NoFuel.
Proof.
  destruct p as [q|s]; simpl; [|apply cstring_no_fuel].
  destruct (buf t); [apply cstring_no_fuel | discriminate].
Qed.

Lemma deref_no_fuel t p : deref t p <> NoFuel.
Proof.
  destruct p as [q|s]; simpl; [|discriminate].
  destruct (buf t); [apply load_no_fuel | discriminate].
Qed.

Lemma FieldCount_no_fuel t : FieldCount t <> NoFuel.
Proof. unfold FieldCount. destruct (cells t); discriminate. Qed.

Lemma has_content_no_fuel t r n : forall c, has_content t r c n <> NoFuel.
Proof.
  induction n as [|n IH]; intros c; simpl; [discriminate|].
  apply bind_no_fuel; [apply at_no_fuel|]. intros row _.
  apply bind_no_fuel; [apply at_no_fuel|]. intros p _.
  apply bind_no_fuel.
  - unfold strlen. apply bind_no_fuel; [apply str_of_no_fuel | discriminate].
  - intros len _. destruct (negb (len =? 0)); [discriminate | apply IH].
Qed.

Lemma PruneRows_body_no_fuel bits t r pruned :
  PruneRows_body bits t r pruned <> NoFuel.
Proof.
  unfold PruneRows_body. apply bind_no_fuel.
  - destruct (flag_set bits CSV_ST_PRUNE_COMMENTS); [|discriminate].
    apply bind_no_fuel; [apply at_no_fuel|]. intros row _.
    apply bind_no_fuel; [apply at_no_fuel|]. intros p _.
    apply bind_no_fuel; [apply deref_no_fuel|]. intros x _.
    destruct (Ascii.eqb x HASH); [|discriminate].
    apply bind_no_fuel; [apply erase_no_fuel | discriminate].
  - intros [t1 p1] _.
    destruct (flag_set bits CSV_ST_PRUNE_EMPTY); [|discriminate].
    apply bind_no_fuel; [apply FieldCount_no_fuel|]. intros n _.
    apply bind_no_fuel; [apply has_content_no_fuel|]. intros content _.
    destruct content; [discriminate|].
    apply bind_no_fuel; [apply erase_no_fuel | discriminate].
Qed.

(** With [CSV_ST_PRUNE_EMPTY] set, a pass of the loop of [PruneRows] that
    completes brings [r] closer to the end of the grid. *)
Lemma PruneRows_body_progress bits t r pruned t' r' pruned' :
  flag_set bits CSV_ST_PRUNE_EMPTY = true ->
  r + 1 < length (cells t) ->
  PruneRows_body bits t r pruned = Ret (t', r', pruned') ->
  length (cells t') - r' < length (cells t) - r.
Proof.
  intros He Hr H. unfold PruneRows_body in H. rewrite He in H.
  bind_inv H. destruct a as [t1 p1].
  assert (H1 : length (cells t1) <= length (cells t)).
  { destruct (flag_set bits CSV_ST_PRUNE_COMMENTS).
    - bind_inv Ha. bind_inv Ha. bind_inv Ha.
      destruct (Ascii.eqb a1 HASH).
      + bind_inv Ha. inversion Ha; subst. cbn [cells].
        destruct (erase_Ret _ _ _ Ha3). lia.
      + inversion Ha; subst. lia.
    - inversion Ha; subst. lia. }
  bind_inv H. bind_inv H. destruct a0.
  - inversion H; subst. lia.
  - bind_inv H. inversion H; subst. cbn [cells].
    destruct (erase_Ret _ _ _ Ha2). lia.
Qed.

Lemma PruneRows_loop_ends fuel bits : forall t r pruned,
  flag_set bits CSV_ST_PRUNE_EMPTY = true ->
  length (cells t) <= r + 1 + fuel ->
  PruneRows_loop fuel bits t r pruned <> NoFuel.
Proof.
  induction fuel as [|fuel IH]; intros t r pruned He Hf;
    cbn [PruneRows_loop]; unfold RowCount;
    destruct (Z.ltb_spec (Z.of_nat r) (Z.of_nat (length (cells t)) - 1))
      as [Hlt|Hge]; try discriminate; try lia.
  apply bind_no_fuel; [apply PruneRows_body_no_fuel|].
  intros [[t1 r1] p1] Hb.
  assert (Hr : r + 1 < length (cells t)) by lia.
  pose proof (PruneRows_body_progress _ _ _ _ _ _ _ He Hr Hb) as Hp.
  apply IH; [exact He | lia].
Qed.

(** [PruneRows] with [CSV_ST_PRUNE_EMPTY] among the flags ends within as
    many passes as there are data rows: it returns or leaves the grid. *)
Lemma PruneRows_with_empty_ends fuel bits t :
  flag_set bits CSV_ST_PRUNE_EMPTY = true ->
  length (cells t) <= 1 + fuel ->
  PruneRows fuel bits t <> NoFuel.
Proof.
  intros He Hf. unfold PruneRows.
  destruct (Z.land bits (Z.lor CSV_ST_PRUNE_EMPTY CSV_ST_PRUNE_COMMENTS)
            =? 0)%Z; [discriminate|].
  apply bind_no_fuel; [apply PruneRows_loop_ends; [exact He | lia]|].
  intros [t' p] _. discriminate.
Qed.

Lemma PruneColumns_rows_spec n : forall t c a r out t' out',
  1 <= r ->
  PruneColumns_rows t c a r n out = Ret (t', out') ->
  FieldCount t' = FieldCount t.
Proof.
  induction n as [|n IH]; simpl; intros t c a r out t' out' Hr H.
  - inversion H; subst. reflexivity.
  - bind_inv H. bind_inv H. bind_inv H. bind_inv H.
    assert (Hr' : 1 <= S r) by lia.
    rewrite (IH _ _ _ _ _ _ _ Hr' H).
    unfold FieldCount. cbn [cells].
    destruct (cells t) as [|h rest]; [reflexivity|].
    destruct r as [|r]; [lia | reflexivity].
Qed.

Lemma PruneColumns_rows_no_fuel n : forall t c a r out,
  PruneColumns_rows t c a r n out <> NoFuel.
Proof.
  induction n as [|n IH]; simpl; intros t c a r out; [discriminate|].
  apply bind_no_fuel.
  { unfold CellValue. apply bind_no_fuel; [apply at_no_fuel|].
    intros row _. apply at_no_fuel. }
  intros p _. apply bind_no_fuel; [apply deref_no_fuel|]. intros x _.
  apply bind_no_fuel; [apply at_no_fuel|]. intros row _.
  apply bind_no_fuel; [apply erase_no_fuel|]. intros row' _. apply IH.
Qed.

Lemma PruneColumns_loop_no_fuel fuel : forall t c a pruned out,
  (forall fc, FieldCount t = Ret fc -> fc <= c + fuel) ->
  PruneColumns_loop fuel t c a pruned out <> NoFuel.
Proof.
  induction fuel as [|fuel IH]; intros t c a pruned out Hf;
    cbn [PruneColumns_loop];
    (apply bind_no_fuel; [apply FieldCount_no_fuel|]); intros fc Hfc;
    specialize (Hf fc Hfc);
    destruct (Nat.ltb_spec c fc) as [Hlt|Hge]; try discriminate; try lia.
  apply bind_no_fuel.
  { unfold FieldName. apply bind_no_fuel; [apply at_no_fuel|].
    intros row _. apply at_no_fuel. }
  intros p _. apply bind_no_fuel; [apply deref_no_fuel|]. intros x _.
  destruct (negb (Ascii.eqb x NUL)).
  - apply IH. intros fc' Hfc'. rewrite Hfc in Hfc'. inversion Hfc'; subst. lia.
  - apply bind_no_fuel; [apply PruneColumns_rows_no_fuel|].
    intros [t1 out1] Hrows.
    pose proof (PruneColumns_rows_spec _ _ _ _ _ _ _ _ (le_n 1) Hrows) as Hfc1.
    apply bind_no_fuel; [apply at_no_fuel|]. intros h Hh.
    apply bind_no_fuel; [apply erase_no_fuel|]. intros h' Hh'.
    destruct (erase_Ret _ _ _ Hh') as [Hc Hlen].
    apply IH. intros fc'. unfold FieldCount. cbn [cells].
    rewrite Hfc in Hfc1. unfold FieldCount, at_ in Hfc1, Hh.
    destruct (cells t1) as [|h1 rest]; [discriminate|].
    cbn in Hh. inversion Hh; subst h1. inversion Hfc1; subst fc.
    cbn. intros Hfc'. inversion Hfc'; subst. lia.
Qed.

(** [PruneColumns] ends: it returns or leaves the grid. *)
Lemma PruneColumns_ends t : PruneColumns t <> NoFuel.
Proof.
  unfold PruneColumns. apply bind_no_fuel.
  - apply PruneColumns_loop_no_fuel. intros fc. unfold FieldCount.
    destruct (cells t); [discriminate|]. cbn. intros H; inversion H. lia.
  - intros [[t' p] out] _. discriminate.
Qed.

(** The line loop of [ReadFile] ends, and so does the whole load when no
    pruning flag is given. *)
Lemma ReadFile_without_pruning_ends fuel t path loadflags w :
  flag_set loadflags CSV_ST_PRUNE_EMPTY = false ->
  flag_set loadflags CSV_ST_PRUNE_COMMENTS = false ->
  ReadFile fuel t path loadflags w <> NoFuel.
Proof.
  intros He Hc. unfold ReadFile.
  destruct (files w !! path) as [content|]; [|discriminate].
  destruct (length content =? 0); [discriminate|].
  apply bind_no_fuel; [apply strtok_c_no_fuel|].
  intros [[tok m1] context] Ht.
  pose proof (strtok_c_length _ _ _ _ _ _ _ Ht) as Hl.
  assert (Hctx : context <= length m1).
  { destruct tok as [tk|].
    - assert (Hd : CRLF <> []) by (unfold CRLF; discriminate).
      destruct (strtok_c_token _ _ _ _ _ _ _ Hd Ht) as (_ & _ & Hhi & _). lia.
    - unfold strtok_c in Ht. bind_inv Ht. destruct a as [k|].
      + bind_inv Ht. destruct a. discriminate.
      + inversion Ht; subst. lia. }
  apply bind_no_fuel; [apply read_lines_no_fuel; lia|].
  intros [m2 cells2|i found expected] _; [|discriminate].
  rewrite He. cbn [bind].
  apply bind_no_fuel; [|intros [[n t3] out2] _; discriminate].
  unfold PruneRows, flag_set in *.
  assert (Hz : (Z.land loadflags
                  (Z.lor CSV_ST_PRUNE_EMPTY CSV_ST_PRUNE_COMMENTS) =? 0)%Z
               = true).
  { apply negb_false_iff in He, Hc. apply Z.eqb_eq in He, Hc.
    apply Z.eqb_eq. rewrite Z.land_lor_distr_r, He, Hc. reflexivity. }
  rewrite Hz. discriminate.
Qed.

(** * Further properties of the table operations *)

(** ** PruneRows only removes rows, and counts them *)

Lemma PruneRows_body_removes bits t r pruned t' r' pruned' :
  PruneRows_body bits t r pruned = Ret (t', r', pruned') ->
  buf t' = buf t /\ cells t' `sublist_of` cells t /\
  (Z.of_nat (length (cells t)) + pruned
   = Z.of_nat (length (cells t')) + pruned')%Z.
Proof.
  intros H. unfold PruneRows_body in H. bind_inv H. destruct a as [t1 p1].
  assert (H1 : buf t1 = buf t /\ cells t1 `sublist_of` cells t /\
               (Z.of_nat (length (cells t)) + pruned
                = Z.of_nat (length (cells t1)) + p1)%Z).
  { destruct (flag_set bits CSV_ST_PRUNE_COMMENTS).
    - bind_inv Ha. bind_inv Ha. bind_inv Ha. destruct (Ascii.eqb a1 HASH).
      + bind_inv Ha. inversion Ha; subst. cbn [buf cells].
        destruct (erase_Ret _ _ _ Ha3) as [Hi Hl].
        unfold erase in Ha3. case_decide; [|discriminate].
        inversion Ha3; subst. split; [reflexivity|].
        split; [apply sublist_delete | lia].
      + inversion Ha; subst. split; [reflexivity|]. split; [reflexivity | lia].
    - inversion Ha; subst. split; [reflexivity|]. split; [reflexivity | lia]. }
  destruct H1 as (Hb & Hs & Hn).
  destruct (flag_set bits CSV_ST_PRUNE_EMPTY).
  - bind_inv H. bind_inv H. destruct a0.
    + inversion H; subst. auto.
    + bind_inv H. inversion H; subst. cbn [buf cells].
      destruct (erase_Ret _ _ _ Ha2) as [Hi Hl].
      unfold erase in Ha2. case_decide; [|discriminate].
      inversion Ha2; subst. split; [exact Hb|]. split; [|lia].
      etrans; [apply sublist_delete | exact Hs].
  - inversion H; subst. auto.
Qed.

Lemma PruneRows_loop_removes fuel bits : forall t r pruned t' pruned',
  PruneRows_loop fuel bits t r pruned = Ret (t', pruned') ->
  buf t' = buf t /\ cells t' `sublist_of` cells t /\
  (Z.of_nat (length (cells t)) + pruned
   = Z.of_nat (length (cells t')) + pruned')%Z.
Proof.
  induction fuel as [|fuel IH]; intros t r pruned t' pruned' H;
    cbn [PruneRows_loop] in H;
    destruct (Z.of_nat r <? RowCount t)%Z; try discriminate;
    try (inversion H; subst; split; [reflexivity|];
         split; [reflexivity | lia]).
  bind_inv H. destruct a as [[t1 r1] p1].
  destruct (PruneRows_body_removes _ _ _ _ _ _ _ Ha) as (Hb & Hs & Hn).
  destruct (IH _ _ _ _ _ H) as (Hb' & Hs' & Hn').
  split; [congruence|]. split; [etrans; eauto | lia].
Qed.

(** A completed [PruneRows] leaves the buffer alone, keeps the remaining
    rows in their order (they are a sublist of the rows before), returns the
    number of rows it removed, and prints exactly when it removed some. *)
Theorem PruneRows_removes_counted (fuel : nat) (bits : Z)
    (t t' : CSVStaticTable) (n : Z) (out : list msg) :
  PruneRows fuel bits t = Ret (n, t', out) ->
  buf t' = buf t /\
  cells t' `sublist_of` cells t /\
  Z.of_nat (length (cells t)) = (Z.of_nat (length (cells t')) + n)%Z /\
  out = (if (n =? 0)%Z then [] else [Printf_PrunedRows n]).
Proof.
  intros H. unfold PruneRows in H.
  destruct (Z.land bits (Z.lor CSV_ST_PRUNE_EMPTY CSV_ST_PRUNE_COMMENTS)
            =? 0)%Z.
  - inversion H; subst. repeat split; [reflexivity | lia].
  - bind_inv H. destruct a as [t1 p1]. inversion H; subst.
    destruct (PruneRows_loop_removes _ _ _ _ _ _ _ Ha) as (Hb & Hs & Hn).
    repeat split; [exact Hb | exact Hs | lia].
Qed.

Lemma PruneRows_removes_counted_witness :
  let t := loaded csv_prune_rows_swapped in
  let t' := mkTable (buf t) (take 2 (cells t)) in
  let out := [Printf_PrunedRows 2] in
  PruneRows 3 3 t = Ret (2%Z, t', out) /\
  buf t' = buf t /\
  cells t' `sublist_of` cells t /\
  Z.of_nat (length (cells t)) = (Z.of_nat (length (cells t')) + 2)%Z /\
  out = (if (2 =? 0)%Z then [] else [Printf_PrunedRows 2]).
Proof.
  cbv zeta.
  assert (H : PruneRows 3 3 (loaded csv_prune_rows_swapped)
              = Ret (2%Z,
                     mkTable (buf (loaded csv_prune_rows_swapped))
                       (take 2 (cells (loaded csv_prune_rows_swapped))),
                     [Printf_PrunedRows 2]))
    by (vm_compute; reflexivity).
  split; [exact H|].
  exact (PruneRows_removes_counted 3 3 _ _ 2 _ H).
Defined.

(** ** DeleteRow *)

(** [DeleteRow] at a data-row index removes that row and no other: the
    header and the rows before it keep their index, the rows after it move
    up by one, and the row count drops by one. *)
Theorem DeleteRow_shifts (t : CSVStaticTable) (row_index : Z) :
  (0 <= row_index < RowCount t)%Z ->
  exists t',
    DeleteRow t row_index = Ret t' /\
    buf t' = buf t /\
    RowCount t' = (RowCount t - 1)%Z /\
    (forall f, FieldName t' f = FieldName t f) /\
    (forall r f,
        CellValue t' r f
        = CellValue t (if (Z.of_nat r <? row_index)%Z then r else r + 1) f).
Proof.
  intros [Hlo Hhi]. unfold DeleteRow, RowCount in *.
  destruct (1 + row_index <? 0)%Z eqn:Hneg; [lia|].
  unfold erase. case_decide as Hk; [|lia]. cbn [bind].
  eexists. split; [reflexivity|]. cbn [buf cells].
  split; [reflexivity|].
  split.
  { rewrite length_delete by (apply lookup_lt_is_Some; exact Hk). lia. }
  split.
  - intros f. unfold FieldName, at_. cbn [cells].
    rewrite list_lookup_delete_lt by lia. reflexivity.
  - intros r f. unfold CellValue, at_. cbn [cells].
    destruct (Z.ltb_spec (Z.of_nat r) row_index) as [Hr|Hr].
    + rewrite list_lookup_delete_lt by lia. reflexivity.
    + rewrite list_lookup_delete_ge by lia.
      replace (S (r + 1)) with (r + 1 + 1) by lia. reflexivity.
Qed.

Lemma DeleteRow_shifts_witness :
  let t := loaded csv_prune_rows in
  (0 <= 1 < RowCount t)%Z /\
  exists t',
    DeleteRow t 1 = Ret t' /\
    buf t' = buf t /\
    RowCount t' = (RowCount t - 1)%Z /\
    (forall f, FieldName t' f = FieldName t f) /\
    (forall r f,
        CellValue t' r f
        = CellValue t (if (Z.of_nat r <? 1)%Z then r else r + 1) f).
Proof.
  cbv zeta.
  assert (H : (0 <= 1 < RowCount (loaded csv_prune_rows))%Z)
    by (vm_compute; split; [discriminate | reflexivity]).
  split; [exact H|].
  exact (DeleteRow_shifts (loaded csv_prune_rows) 1 H).
Defined.

(** [DeleteRow] past the last data row leaves the grid. *)
Lemma DeleteRow_out_of_range t row_index :
  (RowCount t <= row_index)%Z -> DeleteRow t row_index = OutOfBounds.
Proof.
  intros H. unfold DeleteRow, RowCount in *.
  destruct (1 + row_index <? 0)%Z; [reflexivity|].
  unfold erase. case_decide as Hk; [lia | reflexivity].
Qed.

(** ** What WriteFile and ReadFile leave alone *)

(** [WriteFile] returns 0, 1 or 2; it changes no file other than [path],
    changes no file at all unless it returns 0, and when it returns 0 the
    file at [path] holds the text of [PrintTable] as the stream stores
    it. *)
Theorem WriteFile_exits (t : CSVStaticTable) (path : string)
    (overwrite : bool) (w w' : World) (n : Z) :
  WriteFile t path overwrite w = Ret (n, w') ->
  (n = 0 \/ n = 1 \/ n = 2)%Z /\
  (forall p, p <> path -> files w' !! p = files w !! p) /\
  (n <> 0%Z -> files w' = files w /\ opened_w w' = opened_w w) /\
  (n = 0%Z ->
   exists out, PrintTable t false = Ret out /\
               files w' !! path = Some (text_mode w out)).
Proof.
  intros H. unfold WriteFile in H.
  destruct (FS_FileExists w path && negb overwrite).
  { inversion H; subst. cbn. split; [auto|]. split; [auto|].
    split; [auto | discriminate]. }
  destruct (bool_decide (path ∈ unwritable w)).
  { inversion H; subst. cbn. split; [auto|]. split; [auto|].
    split; [auto | discriminate]. }
  bind_inv H. inversion H; subst. cbn [files opened_w].
  split; [auto|]. split.
  - intros p Hp. apply lookup_insert_ne. congruence.
  - split; [congruence|]. intros _. exists a. split; [exact Ha|].
    apply lookup_insert_eq.
Qed.

Lemma WriteFile_exits_witness :
  let t := loaded csv_one_row in
  let w := disk "in.csv" csv_one_row true in
  let w' := mkWorld (<["out.csv"%string := csv_one_row]> (files w)) ∅ true []
              ["out.csv"%string] in
  WriteFile t "out.csv" false w = Ret (0%Z, w') /\
  (0 = 0 \/ 0 = 1 \/ 0 = 2)%Z /\
  (forall p, p <> "out.csv"%string -> files w' !! p = files w !! p) /\
  (0%Z <> 0%Z -> files w' = files w /\ opened_w w' = opened_w w) /\
  (0%Z = 0%Z ->
   exists out, PrintTable t false = Ret out /\
               files w' !! "out.csv"%string = Some (text_mode w out)).
Proof.
  cbv zeta.
  assert (H : WriteFile (loaded csv_one_row) "out.csv" false
                (disk "in.csv" csv_one_row true)
              = Ret (0%Z,
                     mkWorld (<["out.csv"%string := csv_one_row]>
                                (files (disk "in.csv" csv_one_row true)))
                       ∅ true [] ["out.csv"%string]))
    by (vm_compute; reflexivity).
  split; [exact H|].
  exact (WriteFile_exits _ _ _ _ _ _ H).
Defined.

(** ** The buffer stays terminated and the views stay inside it *)

Lemma Forall_sublist_of {A : Type} (P : A -> Prop) (k l : list A) :
  k `sublist_of` l -> Forall P l -> Forall P k.
Proof.
  induction 1 as [|x k l _ IH|x k l _ IH]; intros H; [constructor| |].
  - inversion H; subst. constructor; auto.
  - inversion H; subst. auto.
Qed.

Lemma store_terminated m p x m' :
  terminated m -> store m p x = Ret m' -> p + 1 < length m \/ x = NUL ->
  terminated m'.
Proof.
  intros [m0 ->] H Hp. pose proof (store_bound _ _ _ _ H) as Hb.
  unfold store in H. case_decide; [|discriminate]. inversion H; subst.
  rewrite length_app in *. cbn [length] in *.
  destruct (decide (p < length m0)) as [Hlt|Hge].
  - exists (<[p := x]> m0). exact (insert_app_l m0 [NUL] p x Hlt).
  - destruct Hp as [Hp| ->]; [lia|].
    exists m0. assert (Hp0 : p = length m0 + 0) by lia. rewrite Hp0.
    exact (insert_app_r m0 [NUL] 0 NUL).
Qed.

Lemma wipe_terminated d : forall m c m' c',
  terminated m -> wipe m c d = Ret (m', c') -> terminated m'.
Proof.
  induction d as [|x d IH]; simpl; intros m c m' c' Ht H.
  - inversion H; subst. exact Ht.
  - bind_inv H. eapply IH; [|exact H].
    eapply store_terminated; eauto.
Qed.

Lemma strtok_c_terminated m s d ctx tok m' ctx' :
  terminated m -> strtok_c m s d ctx = Ret (tok, m', ctx') -> terminated m'.
Proof.
  intros Ht H. unfold strtok_c in H. bind_inv H. destruct a as [k|].
  - bind_inv H. destruct a as [m1 c1]. inversion H; subst.
    eapply wipe_terminated; eauto.
  - inversion H; subst. exact Ht.
Qed.

Lemma strtok_c_none m s d ctx m' ctx' :
  strtok_c m s d ctx = Ret (None, m', ctx') ->
  m' = m /\ ctx' = match s with Some p => p | None => ctx end.
Proof.
  intros H. unfold strtok_c in H. bind_inv H. destruct a as [k|].
  - bind_inv H. destruct a. discriminate.
  - inversion H; subst. auto.
Qed.

Lemma csvtok_loop_terminated fuel : forall m c t m' c',
  terminated m -> t < c ->
  csvtok_loop fuel m c t = Ret (m', c') -> terminated m'.
Proof.
  induction fuel as [|fuel IH]; simpl; intros m c t m' c' Ht Htc H;
    [discriminate|].
  bind_inv H. bind_inv H. bind_inv H.
  pose proof (load_bound _ _ _ Ha) as Hc.
  pose proof (store_length _ _ _ _ Ha0) as Hl.
  assert (Ht1 : terminated a0).
  { eapply store_terminated; eauto. left. lia. }
  destruct (Ascii.eqb a1 QUOTE).
  - bind_inv H. destruct (Ascii.eqb a2 QUOTE).
    + eapply IH; [exact Ht1| |exact H]. lia.
    + bind_inv H. inversion H; subst.
      eapply store_terminated; eauto.
  - eapply IH; [exact Ht1| |exact H]. lia.
Qed.

(** What [csvtok] hands back: a token is the cursor it was given, a NULL
    result leaves cursor and buffer as they were; either way the cursor
    given was inside the buffer, whose size and terminator are kept. *)
Lemma csvtok_result m nt tk m' nt' :
  csvtok m nt = Ret (tk, m', nt') ->
  nt < length m /\ length m' = length m /\
  (terminated m -> terminated m') /\
  match tk with
  | Some p => p = nt
  | None => nt' = nt /\ m' = m
  end.
Proof.
  intros H. pose proof (csvtok_length _ _ _ _ _ H) as Hl.
  unfold csvtok in H. bind_inv H. pose proof (load_bound _ _ _ Ha) as Hb.
  split; [exact Hb|]. split; [exact Hl|].
  destruct (negb (Ascii.eqb a QUOTE)).
  - split; [intros Ht; eapply strtok_c_terminated; eauto|].
    destruct tk as [p|].
    + assert (Hd : [COMMA] <> []) by discriminate.
      destruct (strtok_c_token _ _ _ _ _ _ _ Hd H) as (_ & _ & _ & ->).
      reflexivity.
    + destruct (strtok_c_none _ _ _ _ _ _ H) as [-> ->]. auto.
  - bind_inv H. destruct a0 as [m1 c1]. bind_inv H.
    destruct a0 as [[o m2] c2]. inversion H; subst.
    split; [|reflexivity]. intros Ht.
    eapply strtok_c_terminated; [|exact Ha1].
    eapply csvtok_loop_terminated; [exact Ht| |exact Ha0]. lia.
Qed.

Lemma read_fields_result fuel : forall m nt row m' row',
  read_fields fuel m nt row = Ret (m', row') ->
  length m' = length m /\ (terminated m -> terminated m') /\
  exists ps, row' = row ++ (InBuf <$> ps) /\ ps <> [] /\
             Forall (fun p => p < length m) ps.
Proof.
  induction fuel as [|fuel IH]; simpl; intros m nt row m' row' H;
    [discriminate|].
  bind_inv H. destruct a as [[tk m1] nt1].
  destruct (csvtok_result _ _ _ _ _ Ha) as (Hb & Hl & Ht & Htk).
  destruct tk as [p|].
  - subst p. destruct (IH _ _ _ _ _ H) as (Hl' & Ht' & ps & -> & _ & Hps).
    split; [congruence|]. split; [auto|].
    exists (nt :: ps). rewrite <- app_assoc. split; [reflexivity|].
    split; [discriminate|]. constructor; [exact Hb|].
    rewrite Hl in Hps. exact Hps.
  - destruct Htk as [-> ->]. inversion H; subst.
    split; [reflexivity|]. split; [auto|].
    exists [nt]. split; [reflexivity|]. split; [discriminate|].
    constructor; [exact Hb | constructor].
Qed.

(** The rows the line loop builds: every row it adds holds at least one
    view, all views lie inside the buffer, and all rows have the size of
    the first one. *)
Lemma read_lines_result fuel : forall m cells tok context i m' cells' n,
  length cells = i ->
  Forall (fun r => length r = n) cells ->
  (cells = [] \/ 1 <= n) ->
  Forall (Forall (fun p => exists q, p = InBuf q /\ q < length m)) cells ->
  read_lines fuel m cells tok context i = Ret (Loaded m' cells') ->
  length m' = length m /\ (terminated m -> terminated m') /\
  Forall (Forall (fun p => exists q, p = InBuf q /\ q < length m)) cells' /\
  exists n', 1 <= n' /\ Forall (fun r => length r = n') cells'.
Proof.
  induction fuel as [|fuel IH];
    intros m cells tok context i m' cells' n Hi Hn Hn1 Hv H.
  - destruct tok; [discriminate|]. cbn in H. inversion H; subst.
    split; [reflexivity|]. split; [auto|]. split; [exact Hv|].
    destruct Hn1 as [->|Hn1]; [exists 1; split; [lia | constructor]|].
    exists n. auto.
  - destruct tok as [tk|].
    2:{ cbn in H. inversion H; subst.
        split; [reflexivity|]. split; [auto|]. split; [exact Hv|].
        destruct Hn1 as [->|Hn1]; [exists 1; split; [lia | constructor]|].
        exists n. auto. }
    subst i. rewrite read_lines_step in H. bind_inv H.
    destruct a as [m1 row1].
    destruct (read_fields_result _ _ _ _ _ _ Ha)
      as (Hl1 & Ht1 & ps & -> & Hps & Hpsb).
    cbn [app] in *. rewrite length_fmap in H.
    bind_inv H.
    destruct (negb (length ps =? length a)) eqn:Hcmp; [discriminate|].
    apply negb_false_iff, Nat.eqb_eq in Hcmp.
    bind_inv H. destruct a0 as [[tok' m2] context'].
    pose proof (strtok_c_length _ _ _ _ _ _ _ Ha1) as Hl2.
    assert (Hrow : Forall (fun p => exists q, p = InBuf q /\ q < length m)
                     (InBuf <$> ps)).
    { apply Forall_fmap. eapply Forall_impl; [exact Hpsb|].
      intros q Hq. cbn. eauto. }
    assert (Hlen : exists n', 1 <= n' /\
              Forall (fun r => length r = n') (cells ++ [InBuf <$> ps])).
    { destruct cells as [|r0 rest].
      - exists (length ps). split.
        + destruct ps; [congruence | cbn; lia].
        + constructor; [apply length_fmap | constructor].
      - cbn in Ha0. unfold at_ in Ha0. cbn in Ha0. inversion Ha0; subst a.
        destruct Hn1 as [Hn1|Hn1]; [discriminate|].
        inversion Hn; subst. exists (length r0). split; [exact Hn1|].
        apply Forall_app. split; [constructor; auto|].
        constructor; [rewrite length_fmap; exact Hcmp | constructor]. }
    destruct Hlen as (n' & Hn' & Hall).
    destruct (IH m2 (cells ++ [InBuf <$> ps]) tok' context'
                (S (length cells)) m' cells' n')
      as (Hl' & Ht' & Hv' & Hrect); [| exact Hall | right; exact Hn' | | exact H |].
    { rewrite length_app. cbn. lia. }
    { rewrite Hl2, Hl1. apply Forall_app. split; [exact Hv|].
      constructor; [exact Hrow | constructor]. }
    rewrite Hl2, Hl1 in *.
    split; [exact Hl'|].
    split; [intros Ht; apply Ht';
            exact (strtok_c_terminated _ _ _ _ _ _ _ (Ht1 Ht) Ha1)|].
    split; [exact Hv' | exact Hrect].
Qed.

Lemma PruneRows_removes_counted_aux fuel bits t n t' out :
  PruneRows fuel bits t = Ret (n, t', out) ->
  buf t' = buf t /\ cells t' `sublist_of` cells t.
Proof.
  intros H. unfold PruneRows in H.
  destruct (Z.land bits (Z.lor CSV_ST_PRUNE_EMPTY CSV_ST_PRUNE_COMMENTS)
            =? 0)%Z.
  - inversion H; subst. split; reflexivity.
  - bind_inv H. destruct a as [t1 p1]. inversion H; subst.
    destruct (PruneRows_loop_removes _ _ _ _ _ _ _ Ha) as (Hb & Hs & _).
    auto.
Qed.

(** ** PruneColumns on the header *)

Lemma named_buf t1 t2 p : buf t1 = buf t2 -> named t1 p = named t2 p.
Proof.
  intros H. unfold named, deref. destruct p; [rewrite H|]; reflexivity.
Qed.

Lemma PruneColumns_rows_keeps n : forall t c a r out t' out',
  1 <= r ->
  PruneColumns_rows t c a r n out = Ret (t', out') ->
  buf t' = buf t /\ length (cells t') = length (cells t) /\
  cells t' !! 0 = cells t !! 0 /\
  (forall Q : cptr -> Prop,
      Forall (Forall Q) (cells t) -> Forall (Forall Q) (cells t')).
Proof.
  induction n as [|n IH]; simpl; intros t c a r out t' out' Hr H.
  - inversion H; subst. auto.
  - bind_inv H. bind_inv H. bind_inv H. bind_inv H.
    assert (Hr' : 1 <= S r) by lia.
    destruct (IH _ _ _ _ _ _ _ Hr' H) as (Hb & Hl & H0 & HQ).
    cbn [buf cells] in *.
    split; [exact Hb|]. split; [rewrite Hl; apply length_insert|].
    split; [rewrite H0; apply list_lookup_insert_ne; lia|].
    intros Q HF. apply HQ. apply Forall_insert; [exact HF|].
    unfold erase in Ha2. case_decide; [|discriminate]. inversion Ha2; subst.
    apply Forall_delete. unfold at_ in Ha1.
    destruct (cells t !! r) as [row|] eqn:Hrow; [|discriminate].
    inversion Ha1; subst. eapply Forall_lookup_1; eauto.
Qed.

Lemma PruneColumns_loop_header fuel :
  forall t c a pruned out t' pruned' out' h rows,
  cells t = h :: rows ->
  PruneColumns_loop fuel t c a pruned out = Ret (t', pruned', out') ->
  buf t' = buf t /\
  (exists rows',
      cells t' = (take c h ++ List.filter (named t) (drop c h)) :: rows' /\
      length rows' = length rows) /\
  pruned' = (pruned + Z.of_nat (length (drop c h))
             - Z.of_nat (length (List.filter (named t) (drop c h))))%Z /\
  (forall Q : cptr -> Prop,
      Forall (Forall Q) (cells t) -> Forall (Forall Q) (cells t')).
Proof.
  induction fuel as [|fuel IH];
    intros t c a pruned out t' pruned' out' h rows Hc H;
    cbn [PruneColumns_loop] in H; unfold FieldCount in H; rewrite Hc in H;
    cbn [bind] in H;
    destruct (Nat.ltb_spec c (length h)) as [Hlt|Hge]; try discriminate.
  1,3: inversion H; subst; split; [reflexivity|];
       rewrite drop_ge by lia; rewrite take_ge by lia; cbn;
       rewrite app_nil_r; split; [eauto|]; split; [lia | auto].
  unfold FieldName, at_ in H. rewrite Hc in H. cbn [lookup list_lookup bind] in H.
  destruct (h !! c) as [p|] eqn:Hp;
    [|apply lookup_ge_None in Hp; lia].
  cbn [bind] in H. bind_inv H.
  assert (Hnamed : named t p = negb (Ascii.eqb a0 NUL))
    by (unfold named; rewrite Ha; reflexivity).
  rewrite (drop_S _ _ _ Hp). cbn [List.filter length]. rewrite Hnamed.
  destruct (negb (Ascii.eqb a0 NUL)).
  - destruct (IH _ _ _ _ _ _ _ _ _ _ Hc H) as (Hb & (rows' & Hc' & Hl) & Hn & HQ).
    split; [exact Hb|]. split.
    + exists rows'. split; [|exact Hl]. rewrite Hc'.
      rewrite (take_S_r _ _ _ Hp), <- app_assoc. reflexivity.
    + split; [cbn [length]; lia | exact HQ].
  - bind_inv H. destruct a1 as [t1 out1].
    destruct (PruneColumns_rows_keeps _ _ _ _ _ _ _ _ (le_n 1) Ha0)
      as (Hb1 & Hl1 & H01 & HQ1).
    bind_inv H. bind_inv H.
    rewrite Hc in H01, Hl1. cbn [lookup list_lookup] in H01.
    destruct (cells t1) as [|h1 rows1] eqn:Hc1; [discriminate|].
    cbn in H01. inversion H01; subst h1.
    unfold at_ in Ha1. cbn in Ha1. inversion Ha1; subst a1.
    unfold erase in Ha2. case_decide; [|discriminate]. inversion Ha2; subst a2.
    cbn [insert list_insert] in H.
    match type of H with
    | PruneColumns_loop _ ?t2 _ _ _ _ = _ =>
        destruct (IH t2 _ _ _ _ _ _ _ (delete c h) rows1 eq_refl H)
          as (Hb & (rows' & Hc' & Hl) & Hn & HQ)
    end.
    cbn [buf cells] in *.
    assert (Htake : take c (delete c h) = take c h).
    { rewrite delete_take_drop. apply take_app_length'.
      rewrite length_take_le; lia. }
    assert (Hdrop : drop c (delete c h) = drop (S c) h).
    { rewrite delete_take_drop. apply drop_app_length'.
      rewrite length_take_le; lia. }
    rewrite Htake, Hdrop in *.
    assert (Hnm : forall q, named {| buf := buf t1; cells := delete c h :: rows1 |} q
                            = named t q).
    { intros q. apply named_buf. exact Hb1. }
    rewrite (List.filter_ext _ _ Hnm) in *.
    split; [congruence|]. split.
    + exists rows'. split; [exact Hc'|]. cbn in Hl1. lia.
    + split; [cbn [length]; lia|].
      intros Q HF. apply HQ. specialize (HQ1 Q HF).
      inversion HQ1; subst. constructor; [|assumption].
      apply Forall_delete. assumption.
Qed.

(** A completed [PruneColumns] leaves in the header exactly the fields that
    have a name, in their order, returns the number of header fields it
    removed, keeps the number of rows and the buffer, and prints the count
    exactly when it removed some. *)
Theorem PruneColumns_header (t t' : CSVStaticTable) (n : Z)
    (out : list msg) :
  PruneColumns t = Ret (n, t', out) ->
  buf t' = buf t /\
  exists h rows rows',
    cells t = h :: rows /\
    cells t' = List.filter (named t) h :: rows' /\
    length rows' = length rows /\
    n = Z.of_nat (length h - length (List.filter (named t) h)) /\
    ((n = 0)%Z \/ exists out0, out = out0 ++ [Printf_PrunedColumns n]).
Proof.
  intros H. unfold PruneColumns in H. bind_inv H.
  destruct a as [[t1 p1] out1]. inversion H; subst.
  destruct (cells t) as [|h rows] eqn:Hc.
  { destruct (length (hd [] [])); cbn [PruneColumns_loop] in Ha;
      unfold FieldCount in Ha; rewrite Hc in Ha; discriminate. }
  destruct (PruneColumns_loop_header _ _ _ _ _ _ _ _ _ _ _ Hc Ha)
    as (Hb & (rows' & Hc' & Hl) & Hn & _).
  rewrite drop_0, take_0 in *. cbn [app] in Hc'.
  split; [exact Hb|]. exists h, rows, rows'.
  split; [reflexivity|]. split; [exact Hc'|]. split; [exact Hl|].
  assert (Hle : length (List.filter (named t) h) <= length h)
    by apply List.filter_length_le.
  split; [lia|].
  destruct (n =? 0)%Z eqn:Hz; [left; lia | right; eauto].
Qed.

Lemma PruneColumns_header_witness :
  let t := loaded csv_unnamed_column_2 in
  let t' := mkTable (buf t)
              [[InBuf 0; InBuf 6]; [InBuf 11; InBuf 21]; 
               [InBuf 25; InBuf 27; InBuf 28]] in
  let out := [Printf_PrunedColumns 1] in
  PruneColumns t = Ret (1%Z, t', out) /\
  buf t' = buf t /\
  exists h rows rows',
    cells t = h :: rows /\
    cells t' = List.filter (named t) h :: rows' /\
    length rows' = length rows /\
    1%Z = Z.of_nat (length h - length (List.filter (named t) h)) /\
    ((1 = 0)%Z \/ exists out0, out = out0 ++ [Printf_PrunedColumns 1]).
Proof.
  cbv zeta.
  assert (H : PruneColumns (loaded csv_unnamed_column_2)
              = Ret (1%Z,
                     mkTable (buf (loaded csv_unnamed_column_2))
                       [[InBuf 0; InBuf 6]; [InBuf 11; InBuf 21];
                        [InBuf 25; InBuf 27; InBuf 28]],
                     [Printf_PrunedColumns 1]))
    by (vm_compute; reflexivity).
  split; [exact H|].
  exact (PruneColumns_header _ _ _ _ H).
Defined.

(** ** What a load leaves behind *)

Lemma cstring_app_NUL l : forall k, exists s, cstring (l ++ NUL :: k) = Ret s.
Proof.
  induction l as [|c l IH]; intros k; simpl.
  - eauto.
  - destruct (Ascii.eqb c NUL); [eauto|].
    destruct (IH k) as [s ->]. cbn. eauto.
Qed.

Lemma valid_str_of t p : valid t p -> exists s, str_of t p = Ret s.
Proof.
  destruct p as [q|s]; simpl.
  - intros (m & -> & [m0 ->] & Hq).
    rewrite length_app in Hq. cbn in Hq.
    rewrite drop_app_le by lia. apply cstring_app_NUL.
  - intros _. apply cstring_app_NUL.
Qed.

Lemma row_strings_total t row :
  Forall (valid t) row -> exists ss, row_strings t row = Ret ss.
Proof.
  induction 1 as [|p row Hp _ [ss IH]]; simpl; [eauto|].
  destruct (valid_str_of _ _ Hp) as [s ->]. cbn. rewrite IH. cbn. eauto.
Qed.

Lemma rows_strings_total t rows :
  Forall (Forall (valid t)) rows -> exists rs, rows_strings t rows = Ret rs.
Proof.
  induction 1 as [|row rows Hr _ [rs IH]]; simpl; [eauto|].
  destruct (row_strings_total _ _ Hr) as [ss ->]. cbn. rewrite IH. cbn. eauto.
Qed.

(** The ways [ReadFile] returns. *)
Lemma ReadFile_cases fuel t path loadflags w n t' w' :
  ReadFile fuel t path loadflags w = Ret (n, t', w') ->
  (files w !! path = None /\ n = 1%Z /\ t' = mkTable None (cells t) /\
   w' = print (print w [Printf_Loading path]) [Error_OpenRead path]) \/
  (files w !! path = Some [] /\ n = 3%Z /\
   t' = mkTable (Some [NUL]) (cells t) /\
   w' = print w [Printf_Loading path]) \/
  (exists content i found expected,
      files w !! path = Some content /\ content <> [] /\ n = 2%Z /\
      t' = mkTable None [] /\
      w' = print (print w [Printf_Loading path])
             [Error_FieldCount i found expected]) \/
  (exists content tok m1 context m2 cells2 n2 t2 out1 n3 t3 out2,
      files w !! path = Some content /\ content <> [] /\ n = 0%Z /\
      strtok_c (content ++ [NUL]) (Some 0) CRLF 0 = Ret (tok, m1, context) /\
      read_lines (S (length (content ++ [NUL]))) m1 (cells t) tok context 0
      = Ret (Loaded m2 cells2) /\
      (if flag_set loadflags CSV_ST_PRUNE_EMPTY
       then PruneColumns (mkTable (Some m2) cells2)
       else Ret (0%Z, mkTable (Some m2) cells2, [])) = Ret (n2, t2, out1) /\
      PruneRows fuel loadflags t2 = Ret (n3, t3, out2) /\
      t' = (if flag_set loadflags CSV_ST_HEADERLESS_SINGLEFIELD
            then mkTable (buf t3) ([Literal name_literal] :: cells t3)
            else t3) /\
      w' = print (print w [Printf_Loading path]) (out1 ++ out2)).
Proof.
  intros H. unfold ReadFile in H.
  destruct (files w !! path) as [content|] eqn:Hf.
  2:{ inversion H; subst. left. auto. }
  replace (length content + 1 - length content) with 1 in H by lia.
  change (replicate 1 NUL) with [NUL] in H.
  destruct (Nat.eqb_spec (length content) 0) as [Hz|Hz].
  { destruct content; [|discriminate]. inversion H; subst.
    right; left. auto. }
  assert (Hne : content <> []) by (intros ->; apply Hz; reflexivity).
  bind_inv H. destruct a as [[tok m1] context]. bind_inv H.
  destruct a as [m2 cells2|i found expected].
  2:{ inversion H; subst. right; right; left.
      exists content, i, found, expected. auto. }
  bind_inv H. destruct a as [[n2 t2] out1]. bind_inv H.
  destruct a as [[n3 t3] out2]. inversion H; subst.
  right; right; right.
  exists content, tok, m1, context, m2, cells2, n2, t2, out1, n3, t3, out2.
  repeat split; auto.
Qed.

(** [ReadFile] into a table that holds no cells returns 0, 1, 2 or 3: 1
    exactly when there is no file to open at [path], 3 whenever the file is
    empty, 2 only with the grid emptied and the buffer released; with 1 and
    with 3 the grid is as it was.  It never changes or opens a file for
    writing, and what was on the console before is still there, in front of
    what it printed. *)
Theorem ReadFile_exits (fuel : nat) (t t' : CSVStaticTable) (path : string)
    (loadflags n : Z) (w w' : World) :
  cells t = [] ->
  ReadFile fuel t path loadflags w = Ret (n, t', w') ->
  (n = 0 \/ n = 1 \/ n = 2 \/ n = 3)%Z /\
  (n = 1%Z <-> files w !! path = None) /\
  (files w !! path = Some [] -> n = 3%Z) /\
  (n = 2%Z -> t' = mkTable None []) /\
  (n = 1%Z \/ n = 3%Z -> cells t' = cells t) /\
  files w' = files w /\ opened_w w' = opened_w w /\
  console w `prefix_of` console w'.
Proof.
  intros _ H. apply ReadFile_cases in H.
  destruct H as [(Hf & -> & -> & ->)|[(Hf & -> & -> & ->)|
    [(content & i & found & expected & Hf & Hne & -> & -> & ->)|
     (content & tok & m1 & context & m2 & cells2 & n2 & t2 & out1 & n3 & t3
      & out2 & Hf & Hne & -> & _ & _ & _ & _ & _ & ->)]]];
    cbn [files opened_w console print cells]; rewrite Hf;
    (split; [auto|]);
    (split; [split; [try discriminate; auto | intros; congruence]|]);
    (split; [intros; congruence|]);
    (split; [try discriminate; auto|]);
    (split; [try (intros [|]; discriminate); auto|]);
    (split; [reflexivity|]); (split; [reflexivity|]);
    try rewrite <- app_assoc; apply prefix_app_r; reflexivity.
Qed.

Lemma ReadFile_exits_witness :
  let w := disk "in.csv" csv_short_row true in
  let w' := mkWorld (files w) ∅ true
              [Printf_Loading "in.csv"; Error_FieldCount 1 1 2] [] in
  cells CSVStaticTable_new = [] /\
  ReadFile 0 CSVStaticTable_new "in.csv" 0 w = Ret (2%Z, mkTable None [], w')
  /\
  (2 = 0 \/ 2 = 1 \/ 2 = 2 \/ 2 = 3)%Z /\
  (2%Z = 1%Z <-> files w !! "in.csv"%string = None) /\
  (files w !! "in.csv"%string = Some [] -> 2%Z = 3%Z) /\
  (2%Z = 2%Z -> mkTable None [] = mkTable None []) /\
  (2%Z = 1%Z \/ 2%Z = 3%Z ->
   cells (mkTable None []) = cells CSVStaticTable_new) /\
  files w' = files w /\ opened_w w' = opened_w w /\
  console w `prefix_of` console w'.
Proof.
  cbv zeta.
  assert (H0 : cells CSVStaticTable_new = []) by reflexivity.
  assert (H : ReadFile 0 CSVStaticTable_new "in.csv" 0
                (disk "in.csv" csv_short_row true)
              = Ret (2%Z, mkTable None [],
                     mkWorld (files (disk "in.csv" csv_short_row true)) ∅ true
                       [Printf_Loading "in.csv"; Error_FieldCount 1 1 2] []))
    by (vm_compute; reflexivity).
  split; [exact H0|]. split; [exact H|].
  exact (ReadFile_exits _ _ _ _ _ _ _ _ H0 H).
Defined.

Lemma strtok_c_first_context content tok m1 context :
  strtok_c (content ++ [NUL]) (Some 0) CRLF 0 = Ret (tok, m1, context) ->
  length m1 = S (length content) /\ terminated m1.
Proof.
  intros H. split.
  - rewrite (strtok_c_length _ _ _ _ _ _ _ H), length_app. cbn. lia.
  - eapply strtok_c_terminated; [|exact H]. exists content. reflexivity.
Qed.

Lemma valid_weaken (t' : CSVStaticTable) m (rows : list (list cptr)) :
  buf t' = Some m -> terminated m ->
  Forall (Forall (fun p => exists q, p = InBuf q /\ q < length m)) rows ->
  Forall (Forall (valid t')) rows.
Proof.
  intros Hb Ht H. eapply Forall_impl; [exact H|]. intros row Hrow.
  eapply Forall_impl; [exact Hrow|]. intros p (q & -> & Hq).
  cbn. eauto.
Qed.

(** After a load that returns 0 the table holds a terminated buffer one
    byte longer than the file, every field reference of the grid is a view
    inside that buffer or a literal, and every cell can be read as a string:
    [contents] has a value. *)
Theorem ReadFile_cells_readable (fuel : nat) (t t' : CSVStaticTable)
    (path : string) (loadflags : Z) (w w' : World) :
  cells t = [] ->
  ReadFile fuel t path loadflags w = Ret (0%Z, t', w') ->
  (exists content m,
      files w !! path = Some content /\ buf t' = Some m /\
      length m = S (length content) /\ terminated m) /\
  Forall (Forall (valid t')) (cells t') /\
  exists rows, contents t' = Ret rows.
Proof.
  intros Hc H. apply ReadFile_cases in H.
  destruct H as [(_ & Hn & _)|[(_ & Hn & _)|
    [(content & i & found & expected & _ & _ & Hn & _)|
     (content & tok & m1 & context & m2 & cells2 & n2 & t2 & out1 & n3 & t3
      & out2 & Hf & Hne & _ & Htok & Hlines & Hcols & Hrows & -> & ->)]]];
    try discriminate.
  destruct (strtok_c_first_context _ _ _ _ Htok) as [Hl1 Ht1].
  rewrite Hc in Hlines.
  destruct (read_lines_result _ _ _ _ _ _ _ _ 0 eq_refl
              (Forall_nil_2 _) (or_introl eq_refl) (Forall_nil_2 _) Hlines)
    as (Hl2 & Ht2 & Hv2 & _).
  specialize (Ht2 Ht1). rewrite <- Hl2 in Hv2.
  assert (H2 : buf t2 = Some m2 /\
               Forall (Forall (fun p => exists q, p = InBuf q /\ q < length m2))
                 (cells t2)).
  { destruct (flag_set loadflags CSV_ST_PRUNE_EMPTY).
    - unfold PruneColumns in Hcols. bind_inv Hcols.
      destruct a as [[ta pa] outa]. inversion Hcols; subst.
      destruct cells2 as [|h rows].
      { destruct (length (hd [] (cells {| buf := Some m2; cells := [] |})));
          cbn in Ha; discriminate. }
      destruct (PruneColumns_loop_header _ _ _ _ _ _ _ _ _ h rows
                  (eq_refl : cells (mkTable (Some m2) (h :: rows)) = h :: rows)
                  Ha)
        as (Hb & _ & _ & HQ).
      split; [exact Hb | apply HQ; exact Hv2].
    - inversion Hcols; subst. auto. }
  destruct H2 as [Hb2 Hv2'].
  destruct (PruneRows_removes_counted_aux _ _ _ _ _ _ Hrows) as (Hb3 & Hs3).
  assert (Hb : buf t3 = Some m2) by congruence.
  assert (Hv3 : Forall (Forall (fun p => exists q, p = InBuf q /\ q < length m2))
                  (cells t3))
    by (eapply Forall_sublist_of; eauto).
  assert (Hfinal :
    Forall (Forall (valid (if flag_set loadflags CSV_ST_HEADERLESS_SINGLEFIELD
                           then mkTable (buf t3)
                                  ([Literal name_literal] :: cells t3)
                           else t3)))
      (cells (if flag_set loadflags CSV_ST_HEADERLESS_SINGLEFIELD
              then mkTable (buf t3) ([Literal name_literal] :: cells t3)
              else t3))).
  { destruct (flag_set loadflags CSV_ST_HEADERLESS_SINGLEFIELD); cbn [cells].
    - constructor; [repeat constructor|].
      apply (valid_weaken _ m2); [exact Hb | exact Ht2 | exact Hv3].
    - apply (valid_weaken _ m2); [exact Hb | exact Ht2 | exact Hv3]. }
  split.
  - exists content, m2. split; [exact Hf|]. split.
    + destruct (flag_set loadflags CSV_ST_HEADERLESS_SINGLEFIELD); exact Hb.
    + split; [lia | exact Ht2].
  - split; [exact Hfinal|]. apply rows_strings_total. exact Hfinal.
Qed.

Lemma ReadFile_cells_readable_witness :
  let w := disk "in.csv" csv_quoted_first true in
  let t' := loaded csv_quoted_first in
  let w' := mkWorld (files w) ∅ true [Printf_Loading "in.csv"] [] in
  cells CSVStaticTable_new = [] /\
  ReadFile 0 CSVStaticTable_new "in.csv" 0 w = Ret (0%Z, t', w') /\
  (exists content m,
      files w !! "in.csv"%string = Some content /\ buf t' = Some m /\
      length m = S (length content) /\ terminated m) /\
  Forall (Forall (valid t')) (cells t') /\
  exists rows, contents t' = Ret rows.
Proof.
  cbv zeta.
  assert (H : ReadFile 0 CSVStaticTable_new "in.csv" 0
                (disk "in.csv" csv_quoted_first true)
              = Ret (0%Z, loaded csv_quoted_first,
                     mkWorld (files (disk "in.csv" csv_quoted_first true))
                       ∅ true [Printf_Loading "in.csv"] []))
    by (vm_compute; reflexivity).
  split; [reflexivity|]. split; [exact H|].
  exact (ReadFile_cells_readable 0 CSVStaticTable_new _ "in.csv" 0 _ _
           eq_refl H).
Defined.

(** A load that returns 0, with neither [CSV_ST_PRUNE_EMPTY] nor
    [CSV_ST_HEADERLESS_SINGLEFIELD] among the flags, leaves a rectangular
    grid: all rows, header included, have the same number of fields, and
    that number is at least one. *)
Theorem ReadFile_rectangular (fuel : nat) (t t' : CSVStaticTable)
    (path : string) (loadflags : Z) (w w' : World) :
  cells t = [] ->
  flag_set loadflags CSV_ST_PRUNE_EMPTY = false ->
  flag_set loadflags CSV_ST_HEADERLESS_SINGLEFIELD = false ->
  ReadFile fuel t path loadflags w = Ret (0%Z, t', w') ->
  exists n, 1 <= n /\ Forall (fun row => length row = n) (cells t').
Proof.
  intros Hc He Hh H. apply ReadFile_cases in H.
  destruct H as [(_ & Hn & _)|[(_ & Hn & _)|
    [(content & i & found & expected & _ & _ & Hn & _)|
     (content & tok & m1 & context & m2 & cells2 & n2 & t2 & out1 & n3 & t3
      & out2 & Hf & Hne & _ & Htok & Hlines & Hcols & Hrows & -> & ->)]]];
    try discriminate.
  rewrite He in Hcols. inversion Hcols; subst. rewrite Hh.
  rewrite Hc in Hlines.
  destruct (read_lines_result _ _ _ _ _ _ _ _ 0 eq_refl
              (Forall_nil_2 _) (or_introl eq_refl) (Forall_nil_2 _) Hlines)
    as (_ & _ & _ & n & Hn & Hall).
  destruct (PruneRows_removes_counted_aux _ _ _ _ _ _ Hrows) as (_ & Hs).
  exists n. split; [exact Hn|]. eapply Forall_sublist_of; eauto.
Qed.

Lemma ReadFile_rectangular_witness :
  let w := disk "in.csv" csv_prune_rows true in
  let t' := loaded csv_prune_rows in
  let w' := mkWorld (files w) ∅ true [Printf_Loading "in.csv"] [] in
  cells CSVStaticTable_new = [] /\
  flag_set 0 CSV_ST_PRUNE_EMPTY = false /\
  flag_set 0 CSV_ST_HEADERLESS_SINGLEFIELD = false /\
  ReadFile 0 CSVStaticTable_new "in.csv" 0 w = Ret (0%Z, t', w') /\
  exists n, 1 <= n /\ Forall (fun row => length row = n) (cells t').
Proof.
  cbv zeta.
  assert (H : ReadFile 0 CSVStaticTable_new "in.csv" 0
                (disk "in.csv" csv_prune_rows true)
              = Ret (0%Z, loaded csv_prune_rows,
                     mkWorld (files (disk "in.csv" csv_prune_rows true))
                       ∅ true [Printf_Loading "in.csv"] []))
    by (vm_compute; reflexivity).
  split; [reflexivity|]. split; [reflexivity|]. split; [reflexivity|].
  split; [exact H|].
  exact (ReadFile_rectangular 0 CSVStaticTable_new _ "in.csv" 0 _ _
           eq_refl eq_refl eq_refl H).
Defined.

(** ** PruneRows with CSV_ST_PRUNE_EMPTY alone *)

Lemma has_content_row t r row n : forall c,
  cells t !! (r + 1) = Some row ->
  has_content t r c n = fields_content t row c n.
Proof.
  induction n as [|n IH]; intros c Hr; simpl; [reflexivity|].
  unfold at_ at 1. rewrite Hr. cbn [bind].
  destruct (at_ row c); cbn [bind]; try reflexivity.
  destruct (strlen t a); cbn [bind]; try reflexivity.
  destruct (negb (a0 =? 0)); [reflexivity|]. apply IH. exact Hr.
Qed.

Lemma fields_content_buf t1 t2 row n : forall c,
  buf t1 = buf t2 -> fields_content t1 row c n = fields_content t2 row c n.
Proof.
  induction n as [|n IH]; intros c Hb; simpl; [reflexivity|].
  destruct (at_ row c); cbn [bind]; try reflexivity.
  assert (Hs : strlen t1 a = strlen t2 a).
  { unfold strlen, str_of. destruct a; [rewrite Hb|]; reflexivity. }
  rewrite Hs. destruct (strlen t2 a); cbn [bind]; try reflexivity.
  destruct (negb (a0 =? 0)); [reflexivity|]. apply IH. exact Hb.
Qed.

Lemma PruneRows_loop_empty_only bits b h : forall rest fuel done pruned,
  flag_set bits CSV_ST_PRUNE_EMPTY = true ->
  flag_set bits CSV_ST_PRUNE_COMMENTS = false ->
  Forall (fun row => exists c,
            fields_content (mkTable b []) row 0 (length h) = Ret c) rest ->
  length rest <= fuel ->
  PruneRows_loop fuel bits (mkTable b (h :: done ++ rest)) (length done) pruned
  = Ret (mkTable b
           (h :: done
              ++ List.filter (row_has_content (mkTable b []) (length h)) rest),
         (pruned + Z.of_nat (length rest)
          - Z.of_nat (length (List.filter
                                (row_has_content (mkTable b []) (length h))
                                rest)))%Z).
Proof.
  induction rest as [|row rest IH]; intros fuel done pruned He Hc Hdef Hf.
  - assert (Hcond : (Z.of_nat (length done)
                     <? RowCount (mkTable b (h :: done ++ [])))%Z = false).
    { unfold RowCount. cbn [cells length]. rewrite length_app. cbn [length].
      apply Z.ltb_ge. lia. }
    destruct fuel; cbn [PruneRows_loop]; rewrite Hcond; cbn [List.filter length];
      do 2 f_equal; lia.
  - destruct fuel as [|fuel]; [cbn in Hf; lia|].
    cbn [PruneRows_loop].
    assert (Hcond : (Z.of_nat (length done)
                     <? RowCount (mkTable b (h :: done ++ row :: rest)))%Z
                    = true).
    { unfold RowCount. cbn [cells length]. rewrite length_app. cbn [length].
      apply Z.ltb_lt. lia. }
    rewrite Hcond. unfold PruneRows_body. rewrite Hc, He. cbn [bind].
    unfold FieldCount. cbn [cells bind].
    assert (Hrow : cells (mkTable b (h :: done ++ row :: rest))
                     !! (length done + 1) = Some row).
    { cbn [cells]. rewrite Nat.add_1_r. cbn [lookup list_lookup].
      apply list_lookup_middle. reflexivity. }
    rewrite (has_content_row _ _ _ _ _ Hrow).
    rewrite (fields_content_buf (mkTable b (h :: done ++ row :: rest))
               (mkTable b []) row (length h) 0 eq_refl).
    inversion Hdef as [|? ? [c Hrc] Hdef']; subst.
    assert (Hkeep : row_has_content (mkTable b []) (length h) row = c)
      by (unfold row_has_content; rewrite Hrc; reflexivity).
    rewrite Hrc. cbn [bind List.filter]. rewrite Hkeep.
    destruct c; cbn [bind].
    + replace (h :: done ++ row :: rest) with (h :: (done ++ [row]) ++ rest)
        by (rewrite <- app_assoc; reflexivity).
      replace (S (length done)) with (length (done ++ [row]))
        by (rewrite length_app; cbn; lia).
      rewrite (IH fuel (done ++ [row]) pruned He Hc Hdef')
        by (cbn in Hf; lia).
      rewrite <- app_assoc. cbn [app length]. do 2 f_equal. lia.
    + unfold erase. cbn [cells]. case_decide as Hk.
      2:{ cbn [length] in Hk. rewrite length_app in Hk. cbn in Hk. lia. }
      cbn [bind buf].
      replace (delete (length done + 1) (h :: done ++ row :: rest))
        with (h :: done ++ rest)
        by (rewrite Nat.add_1_r; symmetry;
            exact (f_equal (cons h) (delete_middle done rest row))).
      rewrite (IH fuel done (pruned + 1)%Z He Hc Hdef') by (cbn in Hf; lia).
      cbn [length]. do 2 f_equal. lia.
Qed.

(** With [CSV_ST_PRUNE_EMPTY] set and [CSV_ST_PRUNE_COMMENTS] not, on a
    table where the emptiness test of every data row has a value,
    [PruneRows] removes exactly the data rows all of whose fields are empty,
    keeps header, order and buffer, and returns the number of rows removed;
    as many passes as there are data rows suffice. *)
Theorem PruneRows_empty_only (fuel : nat) (bits : Z) (t : CSVStaticTable)
    (h : list cptr) (rows : list (list cptr)) :
  flag_set bits CSV_ST_PRUNE_EMPTY = true ->
  flag_set bits CSV_ST_PRUNE_COMMENTS = false ->
  cells t = h :: rows ->
  Forall (fun row => exists c, fields_content t row 0 (length h) = Ret c)
    rows ->
  length rows <= fuel ->
  let kept := List.filter (row_has_content t (length h)) rows in
  let n := Z.of_nat (length rows - length kept) in
  PruneRows fuel bits t
  = Ret (n, mkTable (buf t) (h :: kept),
         if (n =? 0)%Z then [] else [Printf_PrunedRows n]).
Proof.
  intros He Hc Hcells Hdef Hf kept n. unfold PruneRows.
  assert (Hz : (Z.land bits (Z.lor CSV_ST_PRUNE_EMPTY CSV_ST_PRUNE_COMMENTS)
                =? 0)%Z = false).
  { unfold flag_set in He. apply negb_true_iff in He.
    apply Z.eqb_neq in He. apply Z.eqb_neq. intros H0. apply He.
    rewrite Z.land_lor_distr_r in H0. apply Z.lor_eq_0_iff in H0.
    tauto. }
  rewrite Hz. destruct t as [b cs]. cbn [cells buf] in *. subst cs.
  assert (Hdef' : Forall (fun row => exists c,
                    fields_content (mkTable b []) row 0 (length h) = Ret c)
                    rows).
  { eapply Forall_impl; [exact Hdef|]. intros row [c Hrc]. exists c.
    rewrite <- Hrc. apply fields_content_buf. reflexivity. }
  pose proof (PruneRows_loop_empty_only bits b h rows fuel [] 0%Z He Hc
                Hdef' Hf) as Hloop.
  cbn [app length] in Hloop. rewrite Hloop. cbn [bind].
  assert (Hk : List.filter (row_has_content (mkTable b []) (length h)) rows
               = kept).
  { subst kept. apply List.filter_ext. intros row. unfold row_has_content.
    rewrite (fields_content_buf (mkTable b []) (mkTable b (h :: rows))
               row (length h) 0 eq_refl).
    reflexivity. }
  rewrite Hk.
  assert (Hle : length kept <= length rows)
    by (subst kept; apply List.filter_length_le).
  replace (0 + Z.of_nat (length rows) - Z.of_nat (length kept))%Z with n
    by (subst n; lia).
  reflexivity.
Qed.

Lemma PruneRows_empty_only_witness :
  let t := loaded csv_prune_rows in
  let h := [InBuf 0; InBuf 3; InBuf 6] in
  let rows := [[InBuf 10; InBuf 12; InBuf 13]; [InBuf 15; InBuf 16; InBuf 17];
               [InBuf 19; InBuf 28; InBuf 29]] in
  flag_set 1 CSV_ST_PRUNE_EMPTY = true /\
  flag_set 1 CSV_ST_PRUNE_COMMENTS = false /\
  cells t = h :: rows /\
  Forall (fun row => exists c, fields_content t row 0 (length h) = Ret c)
    rows /\
  length rows <= 3 /\
  let kept := List.filter (row_has_content t (length h)) rows in
  let n := Z.of_nat (length rows - length kept) in
  PruneRows 3 1 t
  = Ret (n, mkTable (buf t) (h :: kept),
         if (n =? 0)%Z then [] else [Printf_PrunedRows n]).
Proof.
  cbv zeta.
  assert (H1 : cells (loaded csv_prune_rows)
               = [InBuf 0; InBuf 3; InBuf 6]
                 :: [[InBuf 10; InBuf 12; InBuf 13];
                     [InBuf 15; InBuf 16; InBuf 17];
                     [InBuf 19; InBuf 28; InBuf 29]])
    by (vm_compute; reflexivity).
  assert (H2 : Forall (fun row => exists c,
                 fields_content (loaded csv_prune_rows) row 0
                   (length [InBuf 0; InBuf 3; InBuf 6]) = Ret c)
                 [[InBuf 10; InBuf 12; InBuf 13];
                  [InBuf 15; InBuf 16; InBuf 17];
                  [InBuf 19; InBuf 28; InBuf 29]]).
  { repeat constructor.
    - exists true. vm_compute. reflexivity.
    - exists false. vm_compute. reflexivity.
    - exists true. vm_compute. reflexivity. }
  assert (H3 : length [[InBuf 10; InBuf 12; InBuf 13];
                       [InBuf 15; InBuf 16; InBuf 17];
                       [InBuf 19; InBuf 28; InBuf 29]] <= 3)
    by (simpl; lia).
  split; [reflexivity|]. split; [reflexivity|]. split; [exact H1|].
  split; [exact H2|]. split; [exact H3|].
  exact (PruneRows_empty_only 3 1 (loaded csv_prune_rows) _ _
           eq_refl eq_refl H1 H2 H3).
Defined.

(** * Reading back what PrintTable writes *)

(** ** Reads and writes at a known place of the buffer *)

Ltac list_len :=
  repeat first [rewrite length_app | progress cbn [length]].

Ltac list_eq :=
  repeat first [rewrite <- app_assoc | progress cbn [app]]; reflexivity.


Lemma load_at (m A C : list ascii) x p :
  m = A ++ x :: C -> p = length A -> load m p = Ret x.
Proof.
  intros -> ->. unfold load, mem, ptr.
  rewrite list_lookup_middle by reflexivity. reflexivity.
Qed.

Lemma store_at (m A C : list ascii) b x p :
  m = A ++ b :: C -> p = length A -> store m p x = Ret (A ++ x :: C).
Proof.
  intros -> ->. unfold store. case_decide as Hk.
  - f_equal. replace (length A) with (length A + 0) by lia.
    exact (insert_app_r A (b :: C) 0 x).
  - rewrite length_app in Hk. cbn in Hk. lia.
Qed.

Lemma escape_length s : length s <= length (escape s).
Proof.
  induction s as [|a s IH]; cbn; [lia|].
  destruct (Ascii.eqb a QUOTE); cbn; rewrite ?length_app; cbn; unfold escape in IH; lia.
Qed.

Lemma escape_cons a s :
  escape (a :: s)
  = (if Ascii.eqb a QUOTE then [QUOTE; QUOTE] else [a]) ++ escape s.
Proof. reflexivity. Qed.

(** ** The copying loop undoes the doubling of quotes *)

Lemma csvtok_loop_copy x post : forall s A B fuel,
  B <> [] -> x <> QUOTE -> length s < fuel ->
  exists G,
    length G + length s = length B + length (escape s) /\
    csvtok_loop fuel (A ++ B ++ escape s ++ QUOTE :: x :: post)
      (length A + length B) (length A)
    = Ret (A ++ s ++ NUL :: G ++ x :: post,
           length A + length B + length (escape s) + 1).
Proof.
  induction s as [|a s IH]; intros A B fuel HB Hx Hf;
    (destruct fuel as [|fuel]; [cbn in Hf; lia|]);
    (destruct B as [|b B]; [congruence|]); cbn [csvtok_loop].
  - cbn [escape flat_map app].
    erewrite (load_at _ (A ++ b :: B) (x :: post) QUOTE);
      [| rewrite <- app_assoc; reflexivity | rewrite length_app; reflexivity].
    cbn [bind].
    erewrite (store_at _ A (B ++ QUOTE :: x :: post) b QUOTE);
      [| reflexivity | reflexivity].
    cbn [bind].
    erewrite (load_at _ (A ++ QUOTE :: B) (x :: post) QUOTE);
      [| rewrite <- app_assoc; reflexivity
       | rewrite !length_app; reflexivity].
    cbn [bind]. change (Ascii.eqb QUOTE QUOTE) with true. cbn iota.
    erewrite (load_at _ (A ++ QUOTE :: B ++ [QUOTE]) post x);
      [| rewrite <- !app_assoc; cbn; rewrite <- app_assoc; reflexivity
       | rewrite !length_app; cbn; rewrite length_app; cbn; lia].
    cbn [bind].
    assert (Hxq : Ascii.eqb x QUOTE = false) by (apply Ascii.eqb_neq; exact Hx).
    rewrite Hxq.
    erewrite (store_at _ A (B ++ QUOTE :: x :: post) QUOTE NUL);
      [| reflexivity | reflexivity].
    cbn [bind]. exists (B ++ [QUOTE]). split.
    + rewrite length_app. cbn. lia.
    + rewrite <- app_assoc. cbn. do 2 f_equal. lia.
  - rewrite escape_cons.
    destruct (Ascii.eqb a QUOTE) eqn:Ha.
    + apply Ascii.eqb_eq in Ha. subst a. cbn [app].
      erewrite (load_at _ (A ++ b :: B)
                  (QUOTE :: escape s ++ QUOTE :: x :: post) QUOTE);
        [| rewrite <- app_assoc; reflexivity | rewrite length_app; reflexivity].
      cbn [bind].
      erewrite (store_at _ A
                  (B ++ QUOTE :: QUOTE :: escape s ++ QUOTE :: x :: post)
                  b QUOTE); [| reflexivity | reflexivity].
      cbn [bind].
      erewrite (load_at _ (A ++ QUOTE :: B)
                  (QUOTE :: escape s ++ QUOTE :: x :: post) QUOTE);
        [| rewrite <- app_assoc; reflexivity
         | rewrite !length_app; reflexivity].
      cbn [bind]. change (Ascii.eqb QUOTE QUOTE) with true. cbn iota.
      erewrite (load_at _ (A ++ QUOTE :: B ++ [QUOTE])
                  (escape s ++ QUOTE :: x :: post) QUOTE);
        [| rewrite <- !app_assoc; cbn; rewrite <- app_assoc; reflexivity
         | rewrite !length_app; cbn; rewrite length_app; cbn; lia].
      cbn [bind]. change (Ascii.eqb QUOTE QUOTE) with true. cbn iota.
      destruct (IH (A ++ [QUOTE]) (B ++ [QUOTE; QUOTE]) fuel)
        as (G & HG & Hrun);
        [destruct B; discriminate | exact Hx | cbn in Hf; lia |].
      exists G. split.
      * rewrite ?length_app in HG. cbn [length] in *. lia.
      * rewrite !length_app in Hrun. cbn [length] in Hrun.
        rewrite <- !app_assoc in Hrun. cbn [app] in Hrun.
        etrans; [|etrans; [exact Hrun|]];
          [f_equal; cbn [length]; lia | do 2 f_equal; cbn [length]; lia].
    + cbn [app].
      erewrite (load_at _ (A ++ b :: B)
                  (escape s ++ QUOTE :: x :: post) a);
        [| rewrite <- app_assoc; reflexivity | rewrite length_app; reflexivity].
      cbn [bind].
      erewrite (store_at _ A (B ++ a :: escape s ++ QUOTE :: x :: post) b a);
        [| reflexivity | reflexivity].
      cbn [bind].
      erewrite (load_at _ (A ++ a :: B)
                  (escape s ++ QUOTE :: x :: post) a);
        [| rewrite <- app_assoc; reflexivity
         | rewrite !length_app; reflexivity].
      cbn [bind]. rewrite Ha.
      destruct (IH (A ++ [a]) (B ++ [a]) fuel) as (G & HG & Hrun);
        [destruct B; discriminate | exact Hx | cbn in Hf; lia |].
      exists G. split.
      * rewrite ?length_app in HG. cbn [length] in *. lia.
      * rewrite !length_app in Hrun. cbn [length] in Hrun.
        rewrite <- !app_assoc in Hrun. cbn [app] in Hrun.
        etrans; [|etrans; [exact Hrun|]];
          [f_equal; cbn [length]; lia | do 2 f_equal; cbn [length]; lia].
Qed.

(** ** Searching for the comma and for the line end *)

Lemma strstr_comma post : forall s,
  COMMA ∉ s -> NUL ∉ s ->
  strstr (s ++ COMMA :: post) [COMMA] = Ret (Some (length s)).
Proof.
  induction s as [|a s IH]; intros Hc Hn; [reflexivity|].
  apply not_elem_of_cons in Hc as [Hca Hc].
  apply not_elem_of_cons in Hn as [Hna Hn].
  cbn [app strstr starts_with].
  assert (H1 : Ascii.eqb COMMA a = false) by (apply Ascii.eqb_neq; congruence).
  assert (H2 : Ascii.eqb a NUL = false) by (apply Ascii.eqb_neq; congruence).
  rewrite H1, H2. cbn [andb]. rewrite (IH Hc Hn). reflexivity.
Qed.

Lemma strstr_comma_none post : forall s,
  COMMA ∉ s -> NUL ∉ s ->
  strstr (s ++ NUL :: post) [COMMA] = Ret None.
Proof.
  induction s as [|a s IH]; intros Hc Hn; [reflexivity|].
  apply not_elem_of_cons in Hc as [Hca Hc].
  apply not_elem_of_cons in Hn as [Hna Hn].
  cbn [app strstr starts_with].
  assert (H1 : Ascii.eqb COMMA a = false) by (apply Ascii.eqb_neq; congruence).
  assert (H2 : Ascii.eqb a NUL = false) by (apply Ascii.eqb_neq; congruence).
  rewrite H1, H2. cbn [andb]. rewrite (IH Hc Hn). reflexivity.
Qed.

Lemma strstr_crlf post : forall s,
  LF ∉ s -> NUL ∉ s ->
  strstr (s ++ CR :: LF :: post) CRLF = Ret (Some (length s)).
Proof.
  induction s as [|a s IH]; intros Hl Hn; [reflexivity|].
  apply not_elem_of_cons in Hl as [Hla Hl].
  apply not_elem_of_cons in Hn as [Hna Hn].
  cbn [app]. unfold strstr; fold strstr.
  assert (H0 : starts_with CRLF (a :: s ++ CR :: LF :: post) = false).
  { unfold CRLF. cbn [starts_with]. destruct (Ascii.eqb CR a); [|reflexivity].
    cbn [andb]. destruct s as [|a' s]; cbn [app starts_with].
    - reflexivity.
    - apply not_elem_of_cons in Hl as [Hl' _].
      assert (H1 : Ascii.eqb LF a' = false)
        by (apply Ascii.eqb_neq; congruence).
      rewrite H1. reflexivity. }
  rewrite H0.
  assert (H2 : Ascii.eqb a NUL = false) by (apply Ascii.eqb_neq; congruence).
  rewrite H2. rewrite (IH Hl Hn). reflexivity.
Qed.

(** ** One field *)

Ltac use_run Hrun :=
  match goal with
  | |- context [csvtok_loop ?f ?m ?c ?t] =>
      match type of Hrun with
      | csvtok_loop ?f' ?m' ?c' ?t' = _ =>
          replace (csvtok_loop f m c t) with (csvtok_loop f' m' c' t')
            by (f_equal; first [reflexivity | lia | list_eq | (list_len; lia)]);
          rewrite Hrun
      end
  end.

Lemma needs_quotes_false s :
  needs_quotes s = false -> (COMMA ∉ s) /\ (QUOTE ∉ s).
Proof.
  unfold needs_quotes.
  induction s as [|a s IH]; cbn [existsb]; intros H.
  - split; apply not_elem_of_nil.
  - apply orb_false_iff in H as [Ha Hs]. apply orb_false_iff in Ha as [H1 H2].
    apply Ascii.eqb_neq in H1, H2. destruct (IH Hs) as [Hc Hq].
    split; apply not_elem_of_cons; auto.
Qed.

Lemma hd_not_quote s k : QUOTE ∉ s -> hd NUL (s ++ NUL :: k) <> QUOTE.
Proof.
  destruct s as [|a s]; cbn; [discriminate|].
  intros H. apply not_elem_of_cons in H as [H _]. congruence.
Qed.

(** [csvtok] on the text of a field followed by a comma: the token is the
    string of the field, terminated, and the cursor is left behind the
    comma.  Nothing before the field or behind the comma is changed. *)
Lemma csvtok_field pre s post :
  NUL ∉ s ->
  exists G,
    length G + length s = length (field_text s) /\
    csvtok (pre ++ field_text s ++ COMMA :: post) (length pre)
    = Ret (Some (length pre), pre ++ s ++ NUL :: G ++ post,
           length pre + length (field_text s) + 1).
Proof.
  intros Hn. unfold field_text, csvtok.
  destruct (needs_quotes s) eqn:Hq.
  - cbn [app].
    erewrite (load_at _ pre _ QUOTE); [| reflexivity | reflexivity].
    cbn [bind]. change (negb (Ascii.eqb QUOTE QUOTE)) with false. cbn iota.
    destruct (csvtok_loop_copy COMMA post s pre [QUOTE]
                (length (pre ++ QUOTE :: (escape s ++ [QUOTE]) ++ COMMA :: post)))
      as (G & HG & Hrun); [discriminate | discriminate | |].
    { pose proof (escape_length s). list_len. lia. }
    cbn [length app] in Hrun. use_run Hrun. cbn [bind].
    unfold strtok_c.
    assert (Hdrop : drop (length pre + 1 + length (escape s) + 1)
                      (pre ++ s ++ NUL :: G ++ COMMA :: post)
                    = COMMA :: post).
    { replace (pre ++ s ++ NUL :: G ++ COMMA :: post)
        with ((pre ++ s ++ NUL :: G) ++ COMMA :: post)
        by (rewrite <- !app_assoc; cbn; rewrite <- ?app_assoc; reflexivity).
      apply drop_app_length'. cbn [length] in HG. list_len. lia. }
    rewrite Hdrop. cbn [strstr starts_with].
    change (Ascii.eqb COMMA COMMA) with true. cbn [andb bind wipe].
    erewrite (store_at _ (pre ++ s ++ NUL :: G) post COMMA NUL);
      [| list_eq | cbn [length] in HG; list_len; lia].
    cbn [bind]. exists (G ++ [NUL]). cbn [length] in HG. split.
    + list_len. lia.
    + f_equal. f_equal; [f_equal; list_eq | list_len; lia].
  - destruct (needs_quotes_false _ Hq) as [Hc Hqt].
    assert (Hhd : exists x k, s ++ COMMA :: post = x :: k /\ x <> QUOTE).
    { destruct s as [|a s']; cbn.
      - exists COMMA, post. split; [reflexivity | discriminate].
      - exists a, (s' ++ COMMA :: post). split; [reflexivity|].
        apply not_elem_of_cons in Hqt as [H _]. congruence. }
    destruct Hhd as (x & k & Hxk & Hx).
    erewrite (load_at _ pre k x); [| rewrite Hxk; reflexivity | reflexivity].
    cbn [bind].
    assert (Hxq : Ascii.eqb x QUOTE = false) by (apply Ascii.eqb_neq; exact Hx).
    rewrite Hxq. cbn [negb]. unfold strtok_c.
    rewrite drop_app_length. rewrite (strstr_comma post s Hc Hn).
    cbn [bind wipe].
    erewrite (store_at _ (pre ++ s) post COMMA NUL);
      [| rewrite <- app_assoc; reflexivity | rewrite length_app; reflexivity].
    cbn [bind]. exists []. split; [cbn; lia|].
    rewrite <- app_assoc. cbn [app]. do 2 f_equal. lia.
Qed.

(** [csvtok] at a field that needs no quotes and ends its line: there is no
    comma, so the result is NULL and nothing changes. *)
Lemma csvtok_last_field pre s post :
  NUL ∉ s -> needs_quotes s = false ->
  csvtok (pre ++ s ++ NUL :: post) (length pre)
  = Ret (None, pre ++ s ++ NUL :: post, length pre).
Proof.
  intros Hn Hq. destruct (needs_quotes_false _ Hq) as [Hc Hqt].
  unfold csvtok.
  assert (Hhd : exists x k, s ++ NUL :: post = x :: k /\ x <> QUOTE).
  { destruct s as [|a s']; cbn.
    - exists NUL, post. split; [reflexivity | discriminate].
    - exists a, (s' ++ NUL :: post). split; [reflexivity|].
      apply not_elem_of_cons in Hqt as [H _]. congruence. }
  destruct Hhd as (x & k & Hxk & Hx).
  erewrite (load_at _ pre k x); [| rewrite Hxk; reflexivity | reflexivity].
  cbn [bind].
  assert (Hxq : Ascii.eqb x QUOTE = false) by (apply Ascii.eqb_neq; exact Hx).
  rewrite Hxq. cbn [negb]. unfold strtok_c.
  rewrite drop_app_length. rewrite (strstr_comma_none post s Hc Hn).
  reflexivity.
Qed.

(** A quoted field at the end of its line: [csvtok] returns it all the
    same, with the cursor left on the terminator of the line. *)
Lemma csvtok_quoted_at_line_end pre s post :
  exists G,
    length G + length s = length (escape s) + 1 /\
    csvtok (pre ++ [QUOTE] ++ escape s ++ [QUOTE] ++ NUL :: post) (length pre)
    = Ret (Some (length pre), pre ++ s ++ NUL :: G ++ NUL :: post,
           length pre + length (escape s) + 2).
Proof.
  unfold csvtok. cbn [app].
  erewrite (load_at _ pre _ QUOTE); [| reflexivity | reflexivity].
  cbn [bind]. change (negb (Ascii.eqb QUOTE QUOTE)) with false. cbn iota.
  destruct (csvtok_loop_copy NUL post s pre [QUOTE]
              (length (pre ++ QUOTE :: escape s ++ QUOTE :: NUL :: post)))
    as (G & HG & Hrun); [discriminate | discriminate | |].
  { pose proof (escape_length s). list_len. lia. }
  cbn [length app] in Hrun. use_run Hrun. cbn [bind]. unfold strtok_c.
  assert (Hdrop : drop (length pre + 1 + length (escape s) + 1)
                    (pre ++ s ++ NUL :: G ++ NUL :: post)
                  = NUL :: post).
  { replace (pre ++ s ++ NUL :: G ++ NUL :: post)
      with ((pre ++ s ++ NUL :: G) ++ NUL :: post)
      by (rewrite <- !app_assoc; cbn; rewrite <- ?app_assoc; reflexivity).
    apply drop_app_length'. cbn [length] in HG. list_len. lia. }
  rewrite Hdrop. cbn [strstr starts_with].
  change (Ascii.eqb COMMA NUL) with false. cbn [andb].
  change (Ascii.eqb NUL NUL) with true. cbn [bind].
  exists G. split; [cbn [length] in HG; lia|]. do 2 f_equal. lia.
Qed.

(** ** One row *)

Lemma str_in_app m k q s : str_in m q s -> str_in (m ++ k) q s.
Proof.
  intros (a & b & -> & Ha). exists a, (b ++ k). split; [|exact Ha].
  list_eq.
Qed.

Lemma row_text_cons2 s s2 ss :
  row_text (s :: s2 :: ss) = field_text s ++ COMMA :: row_text (s2 :: ss).
Proof. reflexivity. Qed.

(** The field loop on the text of a row whose last field needs no quotes:
    one view per field, each on the string of its field; the text of the row
    is overwritten, nothing else. *)
Lemma read_fields_row : forall ss pre post row fuel,
  ss <> [] ->
  Forall (fun s => NUL ∉ s) ss ->
  (exists s, last ss = Some s /\ needs_quotes s = false) ->
  length ss <= fuel ->
  exists X ps,
    length X = length (row_text ss) /\
    read_fields fuel (pre ++ row_text ss ++ NUL :: post) (length pre) row
    = Ret (pre ++ X ++ NUL :: post, row ++ (InBuf <$> ps)) /\
    Forall2 (str_in (pre ++ X ++ [NUL])) ps ss.
Proof.
  induction ss as [|s ss IH]; intros pre post row fuel Hne Hn Hlast Hf;
    [congruence|].
  destruct fuel as [|fuel]; [cbn in Hf; lia|].
  inversion Hn as [|? ? Hs Hn']; subst.
  destruct ss as [|s2 ss].
  - destruct Hlast as (s' & Hs' & Hq). cbn in Hs'. inversion Hs'; subst s'.
    cbn [row_text read_fields]. rewrite app_nil_r.
    unfold field_text. rewrite Hq.
    rewrite (csvtok_last_field pre s post Hs Hq). cbn [bind].
    exists s, [length pre]. split; [reflexivity|]. split; [reflexivity|].
    constructor; [|constructor]. exists pre, []. auto.
  - rewrite row_text_cons2. cbn [read_fields].
    destruct (csvtok_field pre s (row_text (s2 :: ss) ++ NUL :: post) Hs)
      as (G & HG & Hrun).
    replace (pre ++ (field_text s ++ COMMA :: row_text (s2 :: ss))
               ++ NUL :: post)
      with (pre ++ field_text s ++ COMMA :: row_text (s2 :: ss) ++ NUL :: post)
      by list_eq.
    rewrite Hrun. cbn [bind].
    destruct (IH (pre ++ s ++ NUL :: G) post (row ++ [InBuf (length pre)])
                fuel)
      as (X & ps & HX & Hread & Hstr);
      [discriminate | exact Hn' | | cbn in Hf; cbn; lia |].
    { destruct Hlast as (s' & Hs' & Hq). exists s'. split; [|exact Hq].
      exact Hs'. }
    replace (pre ++ s ++ NUL :: G ++ row_text (s2 :: ss) ++ NUL :: post)
      with ((pre ++ s ++ NUL :: G) ++ row_text (s2 :: ss) ++ NUL :: post)
      by list_eq.
    replace (length pre + length (field_text s) + 1)
      with (length (pre ++ s ++ NUL :: G)) by (list_len; lia).
    rewrite Hread.
    exists (s ++ NUL :: G ++ X), (length pre :: ps).
    split; [list_len; lia|]. split.
    + f_equal. f_equal; [list_eq|]. rewrite <- app_assoc. reflexivity.
    + constructor.
      * exists pre, (G ++ X ++ [NUL]). split; [list_eq | reflexivity].
      * replace (pre ++ (s ++ NUL :: G ++ X) ++ [NUL])
          with ((pre ++ s ++ NUL :: G) ++ X ++ [NUL]) by list_eq.
        exact Hstr.
Qed.

(** ** The lines of a file *)

Lemma escape_chars c s : c <> QUOTE -> c ∉ s -> c ∉ escape s.
Proof.
  intros Hq. induction s as [|a s IH]; intros Hs; [exact Hs|].
  apply not_elem_of_cons in Hs as [Ha Hs]. rewrite escape_cons.
  apply not_elem_of_app. split; [|auto].
  destruct (Ascii.eqb a QUOTE).
  - intros H. apply elem_of_cons in H as [H|H]; [congruence|].
    apply elem_of_cons in H as [H|H]; [congruence|].
    eapply not_elem_of_nil; eauto.
  - intros H. apply elem_of_cons in H as [H|H]; [congruence|].
    eapply not_elem_of_nil; eauto.
Qed.

Lemma field_text_chars c s : c <> QUOTE -> c ∉ s -> c ∉ field_text s.
Proof.
  intros Hq Hs. unfold field_text. destruct (needs_quotes s); [|exact Hs].
  apply not_elem_of_app. split.
  - intros H. apply elem_of_cons in H as [H|H]; [congruence|].
    eapply not_elem_of_nil; eauto.
  - apply not_elem_of_app. split; [apply escape_chars; auto|].
    intros H. apply elem_of_cons in H as [H|H]; [congruence|].
    eapply not_elem_of_nil; eauto.
Qed.

Lemma row_text_chars c ss :
  c <> QUOTE -> c <> COMMA -> Forall (fun s => c ∉ s) ss -> c ∉ row_text ss.
Proof.
  intros Hq Hc. induction 1 as [|s ss Hs _ IH]; cbn [row_text].
  - apply not_elem_of_nil.
  - apply not_elem_of_app. split; [apply field_text_chars; auto|].
    apply not_elem_of_app. split; [|exact IH].
    destruct ss; [apply not_elem_of_nil|].
    intros H. apply elem_of_cons in H as [H|H]; [congruence|].
    eapply not_elem_of_nil; eauto.
Qed.

Lemma row_text_length ss : length ss <= length (row_text ss) + 1.
Proof.
  induction ss as [|s ss IH]; cbn [row_text length]; [lia|].
  destruct ss as [|s2 ss]; [cbn; lia|].
  list_len. cbn [length] in IH. lia.
Qed.

Lemma file_text_length rows : length rows <= length (file_text rows).
Proof.
  induction rows as [|r rows IH]; cbn [file_text length]; [lia|].
  unfold CRLF. list_len. lia.
Qed.

(** [strtok_c] for the line end, at the start of a line that holds neither
    LF nor NUL: the line is the token and its line end is wiped. *)
Lemma strtok_c_line P line rest (s : option ptr) (ctx : ptr) :
  LF ∉ line -> NUL ∉ line ->
  match s with Some p => p | None => ctx end = length P ->
  strtok_c (P ++ line ++ CR :: LF :: rest) s CRLF ctx
  = Ret (Some (length P), P ++ line ++ NUL :: NUL :: rest,
         length P + length line + 2).
Proof.
  intros Hl Hn Hs. unfold strtok_c.
  destruct s as [p|]; subst; cbv zeta; rewrite drop_app_length;
  rewrite (strstr_crlf rest line Hl Hn); cbn [bind]; unfold CRLF;
  cbn [wipe];
  (erewrite (store_at _ (P ++ line) (LF :: rest) CR NUL);
    [| list_eq | list_len; lia]);
  cbn [bind];
  (erewrite (store_at _ (P ++ line ++ [NUL]) rest LF NUL);
    [| list_eq | list_len; lia]);
  cbn [bind]; (f_equal; f_equal; [f_equal; list_eq | lia]).
Qed.

(** The line loop on the text of a table: one row of views per line, each
    view on the string of its field. *)
Lemma read_lines_rows n : forall rest r P cells fuel,
  1 <= n ->
  Forall (fun ss => length ss = n) (r :: rest) ->
  Forall (Forall (fun s => NUL ∉ s)) (r :: rest) ->
  Forall (Forall (fun s => LF ∉ s)) (r :: rest) ->
  Forall (fun ss => exists s, last ss = Some s /\ needs_quotes s = false)
    (r :: rest) ->
  Forall (fun row : list cptr => length row = n) cells ->
  length (r :: rest) <= fuel ->
  exists Y new,
    read_lines fuel
      (P ++ row_text r ++ NUL :: NUL :: file_text rest ++ [NUL]) cells
      (Some (length P)) (length P + length (row_text r) + 2) (length cells)
    = Ret (Loaded (P ++ Y) (cells ++ new)) /\
    Forall2 (fun row ss =>
               exists ps, row = InBuf <$> ps /\
                          Forall2 (str_in (P ++ Y)) ps ss)
      new (r :: rest).
Proof.
  induction rest as [|r' rest IH];
    intros r P cells fuel Hn1 Hlen Hnul Hlf Hlast Hcells Hf;
    (destruct fuel as [|fuel]; [cbn in Hf; lia|]);
    rewrite read_lines_step;
    inversion Hlen as [|? ? Hr Hlen']; subst;
    inversion Hnul as [|? ? Hrn Hnul']; subst;
    inversion Hlf as [|? ? Hrl Hlf']; subst;
    inversion Hlast as [|? ? Hrlast Hlast']; subst;
    (assert (Hrne : r <> []) by (destruct r; [cbn in Hn1; lia | discriminate]));
    (match goal with
     | |- context [read_fields ?f (P ++ row_text r ++ NUL :: ?post) _ _] =>
         destruct (read_fields_row r P post [] f Hrne Hrn Hrlast)
           as (X & ps & HX & Hread & Hstr);
           [pose proof (row_text_length r); list_len; lia|]
     end);
    rewrite Hread; cbn [bind app];
    pose proof (Forall2_length _ _ _ Hstr) as Hps;
    (assert (Hrow0 : exists row0, at_ (cells ++ [InBuf <$> ps]) 0 = Ret row0
                                  /\ length row0 = length ps);
     [destruct cells as [|c0 cells'];
      [exists (InBuf <$> ps); split; [reflexivity | apply length_fmap]
      |exists c0; split; [reflexivity|]; inversion Hcells; subst; lia]|]);
    destruct Hrow0 as (row0 & Hrow0 & Hl0); rewrite Hrow0; cbn [bind];
    rewrite length_fmap, Hl0, Nat.eqb_refl; cbn [negb].
  - cbn [file_text app].
    assert (Htok : strtok_c (P ++ X ++ [NUL; NUL; NUL]) None CRLF
                     (length P + length (row_text r) + 2)
                   = Ret (None, P ++ X ++ [NUL; NUL; NUL],
                          length P + length (row_text r) + 2)).
    { unfold strtok_c.
      replace (P ++ X ++ [NUL; NUL; NUL]) with ((P ++ X ++ [NUL; NUL]) ++ [NUL])
        by list_eq.
      rewrite drop_app_length' by (list_len; lia). reflexivity. }
    cbn [app] in Htok |- *. rewrite Htok. cbn [bind].
    exists (X ++ [NUL; NUL; NUL]), [InBuf <$> ps].
    split; [destruct fuel; reflexivity|].
    constructor; [|constructor]. exists ps. split; [reflexivity|].
    eapply Forall2_impl; [exact Hstr|]. intros q s Hq.
    replace (P ++ X ++ [NUL; NUL; NUL]) with ((P ++ X ++ [NUL]) ++ [NUL; NUL])
      by list_eq.
    apply str_in_app. exact Hq.
  - cbn [file_text].
    inversion Hlen' as [|? ? Hr' _]; subst.
    inversion Hnul' as [|? ? Hrn' _]; subst.
    inversion Hlf' as [|? ? Hrl' _]; subst.
    assert (Hlf_line : LF ∉ row_text r')
      by (apply row_text_chars; [discriminate | discriminate | exact Hrl']).
    assert (Hnul_line : NUL ∉ row_text r')
      by (apply row_text_chars; [discriminate | discriminate | exact Hrn']).
    pose proof (strtok_c_line (P ++ X ++ [NUL; NUL]) (row_text r')
                  (file_text rest ++ [NUL]) None _ Hlf_line Hnul_line eq_refl)
      as Htok.
    replace (P ++ X ++ NUL :: NUL :: (row_text r' ++ CRLF ++ file_text rest)
               ++ [NUL])
      with ((P ++ X ++ [NUL; NUL]) ++ row_text r' ++ CR :: LF
              :: file_text rest ++ [NUL]) by (unfold CRLF; list_eq).
    replace (length P + length (row_text r) + 2)
      with (length (P ++ X ++ [NUL; NUL])) by (list_len; lia).
    rewrite Htok. cbn [bind].
    destruct (IH r' (P ++ X ++ [NUL; NUL]) (cells ++ [InBuf <$> ps]) fuel)
      as (Y & new & Hrun & Hnew);
      [exact Hn1 | exact Hlen' | exact Hnul' | exact Hlf' | exact Hlast'
       | | cbn in Hf; cbn; lia |].
    { apply Forall_app. split; [exact Hcells|].
      constructor; [rewrite length_fmap; lia | constructor]. }
    replace (S (length cells)) with (length (cells ++ [InBuf <$> ps]))
      by (list_len; lia).
    rewrite Hrun.
    exists (X ++ [NUL; NUL] ++ Y), ((InBuf <$> ps) :: new).
    split; [f_equal; f_equal; list_eq|].
    constructor.
    + exists ps. split; [reflexivity|].
      eapply Forall2_impl; [exact Hstr|]. intros q s Hq.
      replace (P ++ X ++ [NUL; NUL] ++ Y)
        with ((P ++ X ++ [NUL]) ++ NUL :: Y) by list_eq.
      apply str_in_app. exact Hq.
    + replace (P ++ X ++ [NUL; NUL] ++ Y)
        with ((P ++ X ++ [NUL; NUL]) ++ Y) by list_eq.
      exact Hnew.
Qed.

(** ** Writing a table and loading it again *)

Lemma cstring_exact s : forall k, NUL ∉ s -> cstring (s ++ NUL :: k) = Ret s.
Proof.
  induction s as [|a s IH]; intros k Hn; [reflexivity|].
  apply not_elem_of_cons in Hn as [Ha Hn]. cbn [app cstring].
  assert (H : Ascii.eqb a NUL = false) by (apply Ascii.eqb_neq; congruence).
  rewrite H, (IH k Hn). reflexivity.
Qed.

Lemma cstring_no_NUL l : forall s, cstring l = Ret s -> NUL ∉ s.
Proof.
  induction l as [|a l IH]; intros s H; cbn in H; [discriminate|].
  destruct (Ascii.eqb a NUL) eqn:Ha.
  - inversion H; subst. apply not_elem_of_nil.
  - bind_inv H. inversion H; subst. apply Ascii.eqb_neq in Ha.
    apply not_elem_of_cons. split; [congruence | eauto].
Qed.

Lemma str_of_no_NUL t p s : str_of t p = Ret s -> NUL ∉ s.
Proof.
  destruct p as [q|l]; cbn.
  - destruct (buf t); [apply cstring_no_NUL | discriminate].
  - apply cstring_no_NUL.
Qed.

Lemma str_in_str_of b cs q s :
  NUL ∉ s -> str_in b q s -> str_of (mkTable (Some b) cs) (InBuf q) = Ret s.
Proof.
  intros Hn (a & k & -> & <-). cbn. rewrite drop_app_length.
  apply cstring_exact. exact Hn.
Qed.

Lemma print_field_text t p s :
  str_of t p = Ret s -> print_field t p = Ret (field_text s).
Proof.
  intros H. unfold print_field, field_text. rewrite H. cbn [bind].
  destruct (needs_quotes s); reflexivity.
Qed.

Lemma print_fields_text t row ss :
  Forall2 (fun p s => str_of t p = Ret s) row ss ->
  print_fields t row = Ret (row_text ss).
Proof.
  induction 1 as [|p s row ss Hp Hrest IH]; [reflexivity|].
  cbn [print_fields row_text]. rewrite (print_field_text _ _ _ Hp), IH.
  cbn [bind]. destruct Hrest; reflexivity.
Qed.

Lemma text_mode_plain (s : list ascii) :
  LF ∉ s ->
  flat_map (fun c => if Ascii.eqb c LF then [CR; LF] else [c]) s = s.
Proof.
  induction s as [|a s IH]; intros H; [reflexivity|].
  apply not_elem_of_cons in H as [Ha Hs]. cbn [flat_map].
  assert (Ha' : Ascii.eqb a LF = false) by (apply Ascii.eqb_neq; congruence).
  rewrite Ha', (IH Hs). reflexivity.
Qed.

(** What [PrintTable] writes for a table that holds [rows], as a stream
    that stores LF as CR LF keeps it. *)
Lemma PrintTable_text t w rows :
  holds t rows ->
  Forall (Forall (fun s => LF ∉ s)) rows ->
  text_crlf w = true ->
  exists out, PrintTable t false = Ret out /\ text_mode w out = file_text rows.
Proof.
  intros Hh Hlf Hw. unfold PrintTable, holds, text_mode in *. rewrite Hw.
  generalize 0 as r. revert Hlf.
  induction Hh as [|row ss cs rows Hrow _ IH]; intros Hlf r.
  - exists []. split; reflexivity.
  - inversion Hlf as [|? ? Hss Hlf']; subst.
    destruct (IH Hlf' (S r)) as (out & Hout & Htext).
    cbn [print_rows]. rewrite (print_fields_text _ _ _ Hrow). cbn [bind].
    rewrite Hout. cbn [bind]. eexists. split; [reflexivity|].
    cbn [app file_text]. rewrite flat_map_app. cbn [flat_map].
    change (Ascii.eqb LF LF) with true. cbn iota. rewrite Htext.
    rewrite text_mode_plain; [unfold CRLF; list_eq|].
    apply row_text_chars; [discriminate | discriminate | exact Hss].
Qed.

(** Loading the text of a table: [ReadFile] without flags on a file that
    holds [file_text rows] returns 0 with a table that holds [rows]. *)
Lemma ReadFile_file_text fuel t path w rows n :
  cells t = [] ->
  files w !! path = Some (file_text rows) ->
  rows <> [] -> 1 <= n ->
  Forall (fun ss => length ss = n) rows ->
  Forall (Forall (fun s => NUL ∉ s)) rows ->
  Forall (Forall (fun s => LF ∉ s)) rows ->
  Forall (fun ss => exists s, last ss = Some s /\ needs_quotes s = false)
    rows ->
  exists t',
    ReadFile fuel t path 0 w = Ret (0%Z, t', print w [Printf_Loading path]) /\
    holds t' rows.
Proof.
  intros Hc Hf Hne Hn Hlen Hnul Hlf Hlast.
  destruct rows as [|r rest]; [congruence|].
  unfold ReadFile. rewrite Hf, Hc.
  replace (length (file_text (r :: rest)) + 1 - length (file_text (r :: rest)))
    with 1 by lia.
  change (replicate 1 NUL) with [NUL].
  destruct (Nat.eqb_spec (length (file_text (r :: rest))) 0) as [Hz|Hz].
  { pose proof (file_text_length (r :: rest)). cbn [length] in *. lia. }
  inversion Hnul as [|? ? Hrn _]; subst. inversion Hlf as [|? ? Hrl _]; subst.
  assert (Hlf_line : LF ∉ row_text r)
    by (apply row_text_chars; [discriminate | discriminate | exact Hrl]).
  assert (Hnul_line : NUL ∉ row_text r)
    by (apply row_text_chars; [discriminate | discriminate | exact Hrn]).
  pose proof (strtok_c_line [] (row_text r) (file_text rest ++ [NUL])
                (Some 0) 0 Hlf_line Hnul_line eq_refl) as Htok.
  cbn [app length] in Htok.
  replace (file_text (r :: rest) ++ [NUL])
    with (row_text r ++ CR :: LF :: file_text rest ++ [NUL])
    by (cbn [file_text]; unfold CRLF; list_eq).
  rewrite Htok. cbn [bind].
  destruct (read_lines_rows n rest r [] []
              (S (length (row_text r ++ CR :: LF :: file_text rest ++ [NUL])))
              Hn Hlen Hnul Hlf Hlast (Forall_nil_2 _))
    as (Y & new & Hrun & Hnew).
  { pose proof (file_text_length rest). list_len. lia. }
  cbn [app length] in Hrun. rewrite Hrun. cbn [bind].
  exists (mkTable (Some Y) new). split.
  { change (flag_set 0 CSV_ST_PRUNE_EMPTY) with false.
    change (flag_set 0 CSV_ST_HEADERLESS_SINGLEFIELD) with false.
    cbn [bind]. unfold PruneRows.
    change (Z.land 0 (Z.lor CSV_ST_PRUNE_EMPTY CSV_ST_PRUNE_COMMENTS) =? 0)%Z
      with true.
    cbn [bind app]. unfold print. cbn [files unwritable text_crlf console opened_w].
    rewrite app_nil_r. reflexivity. }
  unfold holds. cbn [cells].
  assert (Hall : Forall2 (fun (row : list cptr) (ss : list (list ascii)) =>
                   Forall (fun s => NUL ∉ s) ss /\
                   exists ps, row = InBuf <$> ps /\ Forall2 (str_in Y) ps ss)
                   new (r :: rest)).
  { clear -Hnew Hnul. revert Hnul.
    induction Hnew as [|row ss new rows Hrow _ IH]; intros Hnul;
      [constructor|].
    inversion Hnul; subst. constructor; auto. }
  eapply Forall2_impl; [exact Hall|].
  intros row ss (Hssn & ps & -> & Hps).
  apply Forall2_fmap_l.
  clear -Hps Hssn. induction Hps as [|q s ps ss Hq _ IH]; [constructor|].
  inversion Hssn; subst. constructor; [|auto].
  apply str_in_str_of; assumption.
Qed.

(** Round trip.  Let a table hold [rows]: at least one row, every row of
    the same number of fields, at least one, no field with an LF in it, and
    the last field of every row free of commas and quotes.  Then writing it
    to a writable [path] through a stream that stores LF as CR LF and
    loading that file into a fresh table, without flags, returns 0 with a
    table that holds [rows] again: same shape, same contents. *)
Theorem write_then_load_round_trip (fuel : nat) (t : CSVStaticTable)
    (path : string) (w : World) (rows : list (list (list ascii))) (n : nat) :
  holds t rows ->
  rows <> [] -> 1 <= n ->
  Forall (fun ss => length ss = n) rows ->
  Forall (Forall (fun s => LF ∉ s)) rows ->
  Forall (fun ss => exists s, last ss = Some s /\ needs_quotes s = false)
    rows ->
  text_crlf w = true ->
  path ∉ unwritable w ->
  exists t' w',
    write_then_load fuel t path 0 w = Ret (0%Z, t', w') /\
    holds t' rows /\
    contents t' = contents t.
Proof.
  intros Hh Hne Hn Hlen Hlf Hlast Hw Hpath.
  destruct (PrintTable_text t w rows Hh Hlf Hw) as (out & Hout & Htext).
  assert (Hnul : Forall (Forall (fun s => NUL ∉ s)) rows).
  { clear -Hh. unfold holds in Hh.
    induction Hh as [|row ss cs rows Hrow _ IH]; constructor; [|exact IH].
    clear -Hrow. induction Hrow as [|p s row ss Hp _ IH]; constructor;
      [eapply str_of_no_NUL; eauto | exact IH]. }
  unfold write_then_load, WriteFile.
  rewrite andb_false_r.
  rewrite bool_decide_eq_false_2 by exact Hpath.
  rewrite Hout. cbn [bind]. rewrite Htext.
  match goal with
  | |- context [ReadFile fuel CSVStaticTable_new path 0 ?w1] =>
      destruct (ReadFile_file_text fuel CSVStaticTable_new path w1 rows n
                  eq_refl (lookup_insert_eq _ _ _) Hne Hn Hlen Hnul Hlf Hlast)
        as (t' & Hread & Hh')
  end.
  rewrite Hread. eexists _, _. split; [reflexivity|]. split; [exact Hh'|].
  assert (Hcontents : forall t0, holds t0 rows ->
            contents t0 = Ret (map (map string_of_list_ascii) rows)).
  { clear. intros t0 Hh. unfold contents, holds in *.
    induction Hh as [|row ss cs rows Hrow _ IH]; [reflexivity|].
    cbn [rows_strings map]. rewrite IH.
    assert (Hr : row_strings t0 row = Ret (map string_of_list_ascii ss)).
    { clear -Hrow. induction Hrow as [|p s row ss Hp _ IH]; [reflexivity|].
      cbn [row_strings map]. rewrite Hp, IH. reflexivity. }
    rewrite Hr. reflexivity. }
  rewrite (Hcontents _ Hh), (Hcontents _ Hh'). reflexivity.
Qed.

Ltac not_in_list :=
  let H := fresh "H" in
  vm_compute; intros H;
  repeat (apply elem_of_cons in H as [H|H]; [discriminate H|]);
  apply elem_of_nil in H; exact H.

(** The table of [csv_comma_field], whose first data field holds a comma. *)
Lemma write_then_load_round_trip_witness :
  let t := loaded csv_comma_field in
  let w := disk "in.csv" csv_comma_field true in
  let rows := [[bytes "h1"; bytes "h2"]; [bytes "a,b"; bytes "c"]] in
  holds t rows /\
  rows <> [] /\ 1 <= 2 /\
  Forall (fun ss => length ss = 2) rows /\
  Forall (Forall (fun s => LF ∉ s)) rows /\
  Forall (fun ss => exists s, last ss = Some s /\ needs_quotes s = false)
    rows /\
  text_crlf w = true /\
  ("out.csv"%string ∉ unwritable w) /\
  exists t' w',
    write_then_load 0 t "out.csv" 0 w = Ret (0%Z, t', w') /\
    holds t' rows /\
    contents t' = contents t.
Proof.
  cbv zeta.
  assert (H1 : holds (loaded csv_comma_field)
                 [[bytes "h1"; bytes "h2"]; [bytes "a,b"; bytes "c"]]).
  { unfold holds.
    replace (cells (loaded csv_comma_field))
      with [[InBuf 0; InBuf 3]; [InBuf 7; InBuf 13]]
      by (vm_compute; reflexivity).
    repeat constructor; vm_compute; reflexivity. }
  assert (H2 : [[bytes "h1"; bytes "h2"]; [bytes "a,b"; bytes "c"]] <> [])
    by discriminate.
  assert (H3 : 1 <= 2) by lia.
  assert (H4 : Forall (fun ss : list (list ascii) => length ss = 2)
                 [[bytes "h1"; bytes "h2"]; [bytes "a,b"; bytes "c"]])
    by (repeat constructor).
  assert (H5 : Forall (Forall (fun s => LF ∉ s))
                 [[bytes "h1"; bytes "h2"]; [bytes "a,b"; bytes "c"]])
    by (repeat constructor; not_in_list).
  assert (H6 : Forall (fun ss => exists s,
                         last ss = Some s /\ needs_quotes s = false)
                 [[bytes "h1"; bytes "h2"]; [bytes "a,b"; bytes "c"]]).
  { repeat constructor.
    - exists (bytes "h2"). split; reflexivity.
    - exists (bytes "c"). split; reflexivity. }
  assert (H7 : text_crlf (disk "in.csv" csv_comma_field true) = true)
    by reflexivity.
  assert (H8 : "out.csv"%string
               ∉ unwritable (disk "in.csv" csv_comma_field true))
    by apply not_elem_of_empty.
  split; [exact H1|]. split; [exact H2|]. split; [exact H3|].
  split; [exact H4|]. split; [exact H5|]. split; [exact H6|].
  split; [exact H7|]. split; [exact H8|].
  exact (write_then_load_round_trip 0 (loaded csv_comma_field) "out.csv" _ _ 2
           H1 H2 H3 H4 H5 H6 H7 H8).
Defined.

(** * The tokenizer by itself *)

(** ** strtok_c *)

Lemma starts_with_prefix d : forall l,
  starts_with d l = true <-> d `prefix_of` l.
Proof.
  induction d as [|x d IH]; intros l; cbn [starts_with].
  - split; [intros _; apply prefix_nil | reflexivity].
  - destruct l as [|y l].
    + split; [discriminate|]. intros [k Hk]. discriminate.
    + rewrite andb_true_iff, Ascii.eqb_eq, IH. split.
      * intros [-> H]. apply prefix_cons. exact H.
      * intros H. split;
          [eapply prefix_cons_inv_1 | eapply prefix_cons_inv_2]; eauto.
Qed.

Lemma starts_with_not_prefix d l :
  starts_with d l = false -> ~ d `prefix_of` l.
Proof.
  intros H Hp. apply starts_with_prefix in Hp. congruence.
Qed.

Lemma strstr_Some d : forall l k,
  strstr l d = Ret (Some k) ->
  d `prefix_of` drop k l /\
  (forall j, j < k -> ~ d `prefix_of` drop j l) /\
  (NUL ∉ take k l) /\ k <= length l.
Proof.
  induction l as [|c l IH]; intros k H; cbn [strstr] in H.
  - destruct (starts_with d []) eqn:Hs; [|discriminate].
    inversion H; subst. split; [apply starts_with_prefix; exact Hs|].
    split; [intros j Hj; lia|]. split; [apply not_elem_of_nil | cbn; lia].
  - destruct (starts_with d (c :: l)) eqn:Hs.
    + inversion H; subst. split; [apply starts_with_prefix; exact Hs|].
      split; [intros j Hj; lia|]. split; [apply not_elem_of_nil | cbn; lia].
    + destruct (Ascii.eqb c NUL) eqn:Hc; [discriminate|].
      bind_inv H. destruct a as [k'|]; [|discriminate].
      cbn in H. inversion H; subst.
      destruct (IH _ Ha) as (Hp & Hfirst & Hn & Hk).
      split; [exact Hp|]. split.
      * intros [|j] Hj; [apply starts_with_not_prefix; exact Hs|].
        cbn [drop]. apply Hfirst. lia.
      * split; [|cbn; lia]. cbn [take]. apply not_elem_of_cons.
        apply Ascii.eqb_neq in Hc. split; [congruence | exact Hn].
Qed.

Lemma strstr_None d : forall l,
  strstr l d = Ret None ->
  exists k, l !! k = Some NUL /\ (NUL ∉ take k l) /\
            forall j, j <= k -> ~ d `prefix_of` drop j l.
Proof.
  induction l as [|c l IH]; intros H; cbn [strstr] in H.
  - destruct (starts_with d []); discriminate.
  - destruct (starts_with d (c :: l)) eqn:Hs; [discriminate|].
    destruct (Ascii.eqb c NUL) eqn:Hc.
    + apply Ascii.eqb_eq in Hc. subst c. exists 0.
      split; [reflexivity|]. split; [apply not_elem_of_nil|].
      intros j Hj. replace j with 0 by lia.
      apply starts_with_not_prefix. exact Hs.
    + bind_inv H. destruct a as [k'|]; [discriminate|].
      destruct (IH Ha) as (k & Hk & Hn & Hno).
      exists (S k). split; [exact Hk|]. split.
      * cbn [take]. apply not_elem_of_cons. apply Ascii.eqb_neq in Hc.
        split; [congruence | exact Hn].
      * intros [|j] Hj; [apply starts_with_not_prefix; exact Hs|].
        cbn [drop]. apply Hno. lia.
Qed.

Lemma wipe_shape d : forall (m : mem) c m' c',
  wipe m c d = Ret (m', c') ->
  m' = take c m ++ replicate (length d) NUL ++ drop (c + length d) m.
Proof.
  induction d as [|x d IH]; intros m c m' c' H; cbn [wipe] in H.
  - inversion H; subst. cbn. rewrite Nat.add_0_r. symmetry.
    apply take_drop.
  - bind_inv H. pose proof (store_bound _ _ _ _ Ha) as Hb.
    unfold store in Ha. case_decide; [|discriminate]. inversion Ha; subst a.
    rewrite (IH _ _ _ _ H). unfold mem, ptr in *.
    rewrite drop_insert_lt by lia.
    assert (Ht : take (S c) (<[c:=NUL]> m) = take c m ++ [NUL]).
    { rewrite insert_take_drop by exact Hb.
      replace (take c m ++ NUL :: drop (S c) m)
        with ((take c m ++ [NUL]) ++ drop (S c) m) by list_eq.
      apply take_app_length'. list_len. rewrite length_take_le; lia. }
    rewrite Ht. cbn [length replicate].
    replace (S c + length d) with (c + S (length d)) by lia.
    list_eq.
Qed.

(** What [strtok_c] does.  With a token: the token starts where the search
    started, the delimiter occurs first at its end and is overwritten with
    terminators, the context points behind it, everything else in the
    buffer is as before, and the token reads as the text up to the
    delimiter.  Without a token: the string at the start holds no
    delimiter, and buffer and start are handed back unchanged. *)
Theorem strtok_c_spec (m : mem) (s : option ptr) (d : list ascii)
    (ctx : ptr) (tok : option ptr) (m' : mem) (ctx' : ptr) :
  d <> [] ->
  strtok_c m s d ctx = Ret (tok, m', ctx') ->
  let start := match s with Some p => p | None => ctx end in
  match tok with
  | Some p =>
      p = start /\
      exists k,
        ctx' = start + k + length d /\
        m' = take (start + k) m ++ replicate (length d) NUL ++ drop ctx' m /\
        d `prefix_of` drop (start + k) m /\
        (forall j, j < k -> ~ d `prefix_of` drop (start + j) m) /\
        cstring (drop start m') = Ret (take k (drop start m))
  | None =>
      m' = m /\ ctx' = start /\
      exists str,
        cstring (drop start m) = Ret str /\
        forall j, j <= length str -> ~ d `prefix_of` drop (start + j) m
  end.
Proof.
  intros Hd H start. unfold strtok_c in H. fold start in H.
  bind_inv H. destruct a as [k|].
  - bind_inv H. destruct a as [m1 c1]. inversion H; subst.
    split; [reflexivity|]. exists k.
    destruct (strstr_Some _ _ _ Ha) as (Hp & Hfirst & Hn & Hk).
    destruct (wipe_spec _ _ _ _ _ Ha0) as (Hl & Hc & _).
    pose proof (wipe_shape _ _ _ _ _ Ha0) as Hm. subst ctx'.
    unfold mem, ptr in *. rewrite length_drop in Hk.
    split; [reflexivity|]. split; [exact Hm|].
    rewrite drop_drop in Hp. split; [exact Hp|]. split.
    + intros j Hj. specialize (Hfirst j Hj). rewrite drop_drop in Hfirst.
      exact Hfirst.
    + destruct d as [|x d]; [congruence|].
      assert (Hb : start + k < length m).
      { cbn [wipe] in Ha0. bind_inv Ha0. eapply store_bound; eauto. }
      rewrite Hm. rewrite drop_app_le by (rewrite length_take_le; lia).
      rewrite <- take_drop_commute. cbn [length replicate app].
      apply cstring_exact. exact Hn.
  - inversion H; subst. split; [reflexivity|]. split; [reflexivity|].
    destruct (strstr_None _ _ Ha) as (k & Hk & Hn & Hno).
    exists (take k (drop start m')). split.
    + rewrite <- (take_drop_middle _ _ _ Hk) at 1.
      apply cstring_exact. exact Hn.
    + intros j Hj. rewrite <- drop_drop. apply Hno.
      rewrite length_take in Hj. lia.
Qed.

Lemma strtok_c_spec_witness :
  let m := bytes "ab,cd" ++ [NUL] in
  let m' := bytes "ab" ++ [NUL] ++ bytes "cd" ++ [NUL] in
  [COMMA] <> [] /\
  strtok_c m None [COMMA] 0 = Ret (Some 0, m', 3) /\
  (0 = 0 /\
   exists k,
     3 = 0 + k + length [COMMA] /\
     m' = take (0 + k) m ++ replicate (length [COMMA]) NUL ++ drop 3 m /\
     [COMMA] `prefix_of` drop (0 + k) m /\
     (forall j, j < k -> ~ [COMMA] `prefix_of` drop (0 + j) m) /\
     cstring (drop 0 m') = Ret (take k (drop 0 m))).
Proof.
  cbv zeta.
  assert (H1 : [COMMA] <> []) by discriminate.
  assert (H2 : strtok_c (bytes "ab,cd" ++ [NUL]) None [COMMA] 0
               = Ret (Some 0, bytes "ab" ++ [NUL] ++ bytes "cd" ++ [NUL], 3))
    by (vm_compute; reflexivity).
  split; [exact H1|]. split; [exact H2|].
  exact (strtok_c_spec _ None [COMMA] 0 (Some 0) _ 3 H1 H2).
Defined.

(** ** csvtok on the text of a field *)

(** [csvtok] undoes what [PrintTable] does to a field: on the text written
    for a string [s], followed by a comma, it returns a token that reads as
    [s] and leaves the cursor behind the comma; what lies before the field
    and behind the comma is untouched, and the buffer keeps its size. *)
Theorem csvtok_reads_field_text (pre s post : list ascii) :
  NUL ∉ s ->
  exists m',
    csvtok (pre ++ field_text s ++ COMMA :: post) (length pre)
    = Ret (Some (length pre), m',
           length pre + length (field_text s) + 1) /\
    cstring (drop (length pre) m') = Ret s /\
    take (length pre) m' = pre /\
    drop (length pre + length (field_text s) + 1) m' = post /\
    length m' = length (pre ++ field_text s ++ COMMA :: post).
Proof.
  intros Hn. destruct (csvtok_field pre s post Hn) as (G & HG & Hrun).
  exists (pre ++ s ++ NUL :: G ++ post). split; [exact Hrun|].
  split; [rewrite drop_app_length; apply cstring_exact; exact Hn|].
  split; [apply take_app_length|]. split.
  - replace (pre ++ s ++ NUL :: G ++ post)
      with ((pre ++ s ++ NUL :: G) ++ post) by list_eq.
    apply drop_app_length'. list_len. lia.
  - list_len. lia.
Qed.

Lemma csvtok_reads_field_text_witness :
  let pre := bytes "x," in
  let s := bytes "a" ++ [QUOTE] ++ bytes "b,c" in
  let post := bytes "z" ++ [NUL] in
  (NUL ∉ s) /\
  exists m',
    csvtok (pre ++ field_text s ++ COMMA :: post) (length pre)
    = Ret (Some (length pre), m',
           length pre + length (field_text s) + 1) /\
    cstring (drop (length pre) m') = Ret s /\
    take (length pre) m' = pre /\
    drop (length pre + length (field_text s) + 1) m' = post /\
    length m' = length (pre ++ field_text s ++ COMMA :: post).
Proof.
  cbv zeta.
  assert (H : NUL ∉ bytes "a" ++ [QUOTE] ++ bytes "b,c") by not_in_list.
  split; [exact H|].
  exact (csvtok_reads_field_text (bytes "x,") _ (bytes "z" ++ [NUL]) H).
Defined.

(** * str.cpp *)

Lemma cstring_split l : forall s,
  cstring l = Ret s -> exists k, l = s ++ NUL :: k /\ NUL ∉ s.
Proof.
  induction l as [|a l IH]; intros s H; cbn in H; [discriminate|].
  destruct (Ascii.eqb a NUL) eqn:Ha.
  - apply Ascii.eqb_eq in Ha. inversion H; subst. exists l.
    split; [reflexivity | apply not_elem_of_nil].
  - bind_inv H. inversion H; subst. destruct (IH _ Ha0) as (k & -> & Hn).
    exists k. split; [reflexivity|]. apply Ascii.eqb_neq in Ha.
    apply not_elem_of_cons. split; [congruence | exact Hn].
Qed.

Lemma prefix_before_NUL (d a k : list ascii) :
  NUL ∉ d -> d `prefix_of` a ++ NUL :: k -> d `prefix_of` a.
Proof.
  revert a. induction d as [|x d IH]; intros a Hn Hp; [apply prefix_nil|].
  apply not_elem_of_cons in Hn as [Hx Hn].
  destruct a as [|y a]; cbn in Hp.
  - apply prefix_cons_inv_1 in Hp. congruence.
  - pose proof (prefix_cons_inv_1 _ _ _ _ Hp) as ->.
    apply prefix_cons. apply IH; [exact Hn|].
    eapply prefix_cons_inv_2; eauto.
Qed.

Lemma prefix_drop_app (d s k : list ascii) j :
  j <= length s -> d `prefix_of` drop j s -> d `prefix_of` drop j (s ++ k).
Proof.
  intros Hj [r Hr]. rewrite drop_app_le by exact Hj. rewrite Hr.
  exists (r ++ k). list_eq.
Qed.

Lemma suffix_prefix_drop (d s : list ascii) :
  d `suffix_of` s <->
  length d <= length s /\ d `prefix_of` drop (length s - length d) s.
Proof.
  split.
  - intros [r ->]. list_len. split; [lia|].
    replace (length r + length d - length d) with (length r) by lia.
    rewrite drop_app_length. reflexivity.
  - intros [Hl [r Hr]]. exists (take (length s - length d) s).
    assert (Hlen : length (drop (length s - length d) s) = length d)
      by (rewrite length_drop; lia).
    rewrite Hr, length_app in Hlen.
    destruct r; [|cbn in Hlen; lia]. rewrite app_nil_r in Hr.
    rewrite <- Hr at 2. symmetry. apply take_drop.
Qed.

(** [Str_EndsWith] on two terminated strings returns true exactly when
    [substr] ends [str] and occurs nowhere earlier in it: the first
    occurrence is the one compared.  In particular the empty [substr] ends
    only the empty string. *)
Theorem Str_EndsWith_spec (str substr s d : list ascii) :
  cstring str = Ret s ->
  cstring substr = Ret d ->
  exists b,
    Str_EndsWith str substr = Ret b /\
    (b = true <->
     d `suffix_of` s /\
     forall j, j + length d < length s -> ~ d `prefix_of` drop j s).
Proof.
  intros Hs Hd. unfold Str_EndsWith. rewrite Hd. cbn [bind].
  destruct (cstring_split _ _ Hs) as (k & -> & Hns).
  pose proof (cstring_no_NUL _ _ Hd) as Hnd.
  assert (Hat : (s ++ NUL :: k) !! length s = Some NUL)
    by (apply list_lookup_middle; reflexivity).
  destruct (strstr (s ++ NUL :: k) d) as [[i|]| |] eqn:Hstr; cbn [bind].
  - rewrite Hs. cbn [bind]. eexists. split; [reflexivity|].
    destruct (strstr_Some _ _ _ Hstr) as (Hp & Hfirst & Hn & _).
    assert (Hi : i <= length s).
    { destruct (le_lt_dec i (length s)) as [H|H]; [exact H|].
      exfalso. apply Hn. apply elem_of_take. exists (length s). auto. }
    rewrite drop_app_le in Hp by exact Hi.
    apply prefix_before_NUL in Hp; [|exact Hnd].
    assert (Hfirst' : forall j, j < i -> ~ d `prefix_of` drop j s).
    { intros j Hj Hpj. apply (Hfirst j Hj).
      apply prefix_drop_app; [lia | exact Hpj]. }
    assert (Hdl : length d <= length (drop i s))
      by (apply prefix_length; exact Hp).
    rewrite length_drop in Hdl.
    rewrite Z.eqb_eq. split.
    + intros Heq. assert (Hi' : i = length s - length d) by lia. split.
      * apply suffix_prefix_drop. split; [lia|]. rewrite <- Hi'. exact Hp.
      * intros j Hj. apply Hfirst'. lia.
    + intros [Hsuf Hno]. apply suffix_prefix_drop in Hsuf as [Hl Hsuf].
      destruct (le_lt_dec (length s) (i + length d)) as [H|H];
        [lia | exfalso; exact (Hno i H Hp)].
  - rewrite Hs. cbn [bind]. exists false. split; [reflexivity|].
    split; [discriminate|]. intros [Hsuf _]. exfalso.
    apply suffix_prefix_drop in Hsuf as [Hl Hsuf].
    destruct (strstr_None _ _ Hstr) as (z & Hz & Hnz & Hno).
    assert (Hzs : z = length s).
    { destruct (lt_eq_lt_dec z (length s)) as [[H|H]|H]; [|exact H|].
      - exfalso. apply Hns. apply list_elem_of_lookup. exists z.
        rewrite lookup_app_l in Hz by exact H. exact Hz.
      - exfalso. apply Hnz. apply elem_of_take. exists (length s). auto. }
    subst z. apply (Hno (length s - length d)); [lia|].
    apply prefix_drop_app; [lia | exact Hsuf].
  - exfalso. clear -Hstr. revert Hstr.
    induction s as [|a s IH]; cbn [app strstr].
    + destruct (starts_with d (NUL :: k)); discriminate.
    + destruct (starts_with d (a :: s ++ NUL :: k)); [discriminate|].
      destruct (Ascii.eqb a NUL); [discriminate|].
      destruct (strstr (s ++ NUL :: k) d) as [[?|]| |]; cbn;
        try discriminate. intros _. apply IH. reflexivity.
  - exfalso. eapply strstr_no_fuel; eauto.
Qed.

Lemma Str_EndsWith_spec_witness :
  let str := bytes "table.csv" ++ [NUL] in
  let substr := bytes ".csv" ++ [NUL] in
  cstring str = Ret (bytes "table.csv") /\
  cstring substr = Ret (bytes ".csv") /\
  exists b,
    Str_EndsWith str substr = Ret b /\
    (b = true <->
     bytes ".csv" `suffix_of` bytes "table.csv" /\
     forall j, j + length (bytes ".csv") < length (bytes "table.csv") ->
               ~ bytes ".csv" `prefix_of` drop j (bytes "table.csv")).
Proof.
  cbv zeta.
  assert (H1 : cstring (bytes "table.csv" ++ [NUL]) = Ret (bytes "table.csv"))
    by (vm_compute; reflexivity).
  assert (H2 : cstring (bytes ".csv" ++ [NUL]) = Ret (bytes ".csv"))
    by (vm_compute; reflexivity).
  split; [exact H1|]. split; [exact H2|].
  exact (Str_EndsWith_spec _ _ _ _ H1 H2).
Defined.

(** Two edges of [Str_EndsWith]: a suffix that also occurs earlier is not
    found, and the empty suffix is found only in the empty string. *)
Example Str_EndsWith_edges :
  Str_EndsWith (bytes "abab" ++ [NUL]) (bytes "ab" ++ [NUL]) = Ret false /\
  Str_EndsWith (bytes "xyab" ++ [NUL]) (bytes "ab" ++ [NUL]) = Ret true /\
  Str_EndsWith (bytes "abc" ++ [NUL]) [NUL] = Ret false /\
  Str_EndsWith [NUL] [NUL] = Ret true.
Proof. vm_compute. repeat split. Qed.

(** ** stristr *)

Lemma ci_prefix_nil l : ci_prefix [] l.
Proof. apply prefix_nil. Qed.

Lemma ci_prefix_cons b p a l :
  ci_prefix (b :: p) (a :: l) <-> toupper b = toupper a /\ ci_prefix p l.
Proof.
  unfold ci_prefix. cbn [fmap list_fmap]. split.
  - intros H. split;
      [eapply prefix_cons_inv_1 | eapply prefix_cons_inv_2]; eauto.
  - intros [-> H]. apply prefix_cons. exact H.
Qed.

Lemma ci_prefix_length p l : ci_prefix p l -> length p <= length l.
Proof.
  intros H. apply prefix_length in H. rewrite !length_fmap in H. exact H.
Qed.

Lemma wrap32_small z : (0 <= z < 2 ^ 32)%Z -> wrap32 z = z.
Proof. intros H. unfold wrap32. apply Z.mod_small. exact H. Qed.

Section stristr_run.

Variables (s k1 p k2 : list ascii).
Hypothesis Hp : NUL ∉ p.
Hypothesis Hs32 : (Z.of_nat (length s) < 2 ^ 32)%Z.

Let M1 : mem := s ++ NUL :: k1.
Let M2 : mem := p ++ NUL :: k2.

Lemma load_M1 (i : nat) a : s !! i = Some a -> load M1 i = Ret a.
Proof.
  intros H. unfold load, M1, mem, ptr.
  rewrite lookup_app_l by (eapply lookup_lt_Some; eauto).
  rewrite H. reflexivity.
Qed.

Lemma load_M2 (i : nat) b : p !! i = Some b -> load M2 i = Ret b.
Proof.
  intros H. unfold load, M2, mem, ptr.
  rewrite lookup_app_l by (eapply lookup_lt_Some; eauto).
  rewrite H. reflexivity.
Qed.

Lemma load_M2_end : load M2 (length p) = Ret NUL.
Proof.
  unfold load, M2, mem, ptr. rewrite list_lookup_middle by reflexivity. reflexivity.
Qed.

Lemma stristr_match_spec fuel : forall q start,
  q < length p -> start + length p <= length s -> length p - q <= fuel ->
  exists b,
    stristr_match fuel M1 M2 (start + q) q = Ret b /\
    (b = true <-> ci_prefix (drop q p) (drop (start + q) s)).
Proof.
  induction fuel as [|fuel IH]; intros q start Hq Hst Hf; [lia|].
  destruct (lookup_lt_is_Some_2 s (start + q)) as [a Ha]; [lia|].
  destruct (lookup_lt_is_Some_2 p q) as [b Hb]; [lia|].
  cbn [stristr_match]. rewrite (load_M1 _ _ Ha), (load_M2 _ _ Hb).
  cbn [bind]. rewrite (drop_S _ _ _ Ha), (drop_S _ _ _ Hb).
  setoid_rewrite ci_prefix_cons.
  destruct (Ascii.eqb (toupper a) (toupper b)) eqn:E.
  - apply Ascii.eqb_eq in E.
    destruct (decide (S q = length p)) as [Hend|Hend].
    + rewrite Hend, load_M2_end. cbn [bind]. exists true.
      split; [reflexivity|]. split; [|reflexivity]. intros _.
      split; [congruence|]. rewrite drop_ge by lia. apply ci_prefix_nil.
    + destruct (lookup_lt_is_Some_2 p (S q)) as [c Hc]; [lia|].
      rewrite (load_M2 _ _ Hc). cbn [bind].
      assert (Hn : Ascii.eqb NUL c = false).
      { apply Ascii.eqb_neq. intros <-. apply Hp.
        eapply list_elem_of_lookup_2; eauto. }
      rewrite Hn.
      destruct (IH (S q) start) as (r & Hr & Hiff); [lia | lia | lia|].
      rewrite Nat.add_succ_r in Hr, Hiff. exists r.
      split; [exact Hr|]. rewrite Hiff. split; [|tauto].
      intros H. split; [congruence | exact H].
  - apply Ascii.eqb_neq in E. exists false. split; [reflexivity|].
    split; [discriminate|]. intros [H _]. congruence.
Qed.

Hypothesis Hp1 : 1 <= length p.

Lemma ci_prefix_short j :
  length s < j + length p -> ~ ci_prefix p (drop j s).
Proof.
  intros H Hc. apply ci_prefix_length in Hc. rewrite length_drop in Hc. lia.
Qed.

Lemma stristr_find_spec fuel : forall start,
  start + length p <= length s -> length s - start <= fuel ->
  exists r,
    stristr_find fuel M1 M2 start
      (Z.of_nat (length s) - Z.of_nat start) (Z.of_nat (length p)) = Ret r /\
    match r with
    | Some (start', slen') =>
        start <= start' /\ start' + length p <= length s /\
        slen' = (Z.of_nat (length s) - Z.of_nat start')%Z /\
        forall j, start <= j < start' -> ~ ci_prefix p (drop j s)
    | None => forall j, start <= j -> ~ ci_prefix p (drop j s)
    end.
Proof.
  induction fuel as [|fuel IH]; intros start Hst Hf; [lia|].
  destruct (lookup_lt_is_Some_2 s start) as [a Ha]; [lia|].
  destruct (lookup_lt_is_Some_2 p 0) as [b Hb]; [lia|].
  cbn [stristr_find]. rewrite (load_M1 _ _ Ha), (load_M2 _ _ Hb).
  cbn [bind].
  assert (Hhere : toupper a <> toupper b -> ~ ci_prefix p (drop start s)).
  { intros Hne. rewrite (drop_S _ _ _ Ha).
    rewrite <- (drop_0 p), (drop_S _ _ _ Hb). rewrite ci_prefix_cons.
    intros [H _]. congruence. }
  destruct (Ascii.eqb (toupper a) (toupper b)) eqn:E; cbn [negb].
  - eexists. split; [reflexivity|]. cbv beta iota.
    split; [lia|]. split; [exact Hst|]. split; [reflexivity|]. intros j Hj. lia.
  - apply Ascii.eqb_neq in E. cbv zeta.
    rewrite wrap32_small by lia.
    destruct (Z.ltb_spec (Z.of_nat (length s) - Z.of_nat start - 1)
                (Z.of_nat (length p))) as [Hlt|Hge].
    + exists None. split; [reflexivity|]. intros j Hj.
      destruct (decide (j = start)) as [->|Hne]; [auto|].
      apply ci_prefix_short. lia.
    + destruct (IH (S start)) as (r & Hr & Hspec); [lia | lia|].
      replace (Z.of_nat (length s) - Z.of_nat (S start))%Z
        with (Z.of_nat (length s) - Z.of_nat start - 1)%Z in Hr by lia.
      exists r. split; [exact Hr|]. destruct r as [[start' slen']|].
      * destruct Hspec as (H1 & H2 & H3 & H4).
        split; [lia|]. split; [exact H2|]. split; [exact H3|].
        intros j Hj. destruct (decide (j = start)) as [->|Hne]; [auto|].
        apply H4. lia.
      * intros j Hj. destruct (decide (j = start)) as [->|Hne]; [auto|].
        apply Hspec. lia.
Qed.

Lemma stristr_loop_spec fuel : forall start,
  start <= length s -> length s - start < fuel ->
  (forall j, j < start -> ~ ci_prefix p (drop j s)) ->
  exists r,
    stristr_loop fuel M1 M2 start
      (Z.of_nat (length s) - Z.of_nat start) (Z.of_nat (length p)) = Ret r /\
    match r with
    | Some i =>
        ci_prefix p (drop i s) /\
        forall j, j < i -> ~ ci_prefix p (drop j s)
    | None => forall j, ~ ci_prefix p (drop j s)
    end.
Proof.
  induction fuel as [|fuel IH]; intros start Hst Hf Hinv; [lia|].
  cbn [stristr_loop].
  destruct (Z.geb_spec (Z.of_nat (length s) - Z.of_nat start)
              (Z.of_nat (length p))) as [Hge|Hlt].
  - destruct (stristr_find_spec (S fuel) start) as (r & Hr & Hspec);
      [lia | lia|].
    rewrite Hr. cbn [bind]. destruct r as [[start' slen']|].
    + destruct Hspec as (H1 & H2 & H3 & H4).
      destruct (stristr_match_spec (S fuel) 0 start') as (b & Hb & Hiff);
        [lia | lia | lia|].
      rewrite Nat.add_0_r in Hb, Hiff. rewrite drop_0 in Hiff.
      rewrite Hb. cbn [bind].
      assert (Hbefore : forall j, j < start' -> ~ ci_prefix p (drop j s)).
      { intros j Hj. destruct (le_lt_dec start j); [apply H4 | apply Hinv];
          lia. }
      destruct b.
      * exists (Some start'). split; [reflexivity|].
        split; [apply Hiff; reflexivity | exact Hbefore].
      * subst slen'. rewrite wrap32_small by lia.
        destruct (IH (S start')) as (r & Hr' & Hspec'); [lia | lia | |].
        { intros j Hj. destruct (decide (j = start')) as [->|Hne].
          - intros Hc. apply Hiff in Hc. discriminate.
          - apply Hbefore. lia. }
        replace (Z.of_nat (length s) - Z.of_nat (S start'))%Z
          with (Z.of_nat (length s) - Z.of_nat start' - 1)%Z in Hr' by lia.
        exists r. split; [exact Hr' | exact Hspec'].
    + exists None. split; [reflexivity|]. intros j.
      destruct (le_lt_dec start j); [apply Hspec | apply Hinv]; lia.
  - exists None. split; [reflexivity|]. intros j.
    destruct (le_lt_dec start j); [apply ci_prefix_short | apply Hinv]; lia.
Qed.

End stristr_run.

(** [stristr] with a pattern that is not empty returns the offset of the
    first place of the string where the pattern occurs when case is
    ignored, and NULL when there is none; it reads neither argument past
    its terminator. *)
Theorem stristr_first_occurrence (fuel : nat) (s1 s2 s p : list ascii) :
  cstring s1 = Ret s ->
  cstring s2 = Ret p ->
  p <> [] ->
  (Z.of_nat (length s) < 2 ^ 32)%Z ->
  (Z.of_nat (length p) < 2 ^ 32)%Z ->
  length s < fuel ->
  exists r,
    stristr fuel s1 s2 = Ret r /\
    match r with
    | Some i =>
        ci_prefix p (drop i s) /\
        forall j, j < i -> ~ ci_prefix p (drop j s)
    | None => forall j, ~ ci_prefix p (drop j s)
    end.
Proof.
  intros Hs Hpat Hne Hs32 Hp32 Hf. unfold stristr. rewrite Hs, Hpat.
  cbn [bind].
  destruct (cstring_split _ _ Hs) as (k1 & -> & _).
  destruct (cstring_split _ _ Hpat) as (k2 & -> & Hn).
  rewrite !wrap32_small by lia.
  assert (Hp1 : 1 <= length p) by (destruct p; [congruence | cbn; lia]).
  destruct (stristr_loop_spec s k1 p k2 Hn Hs32 Hp1 fuel 0) as (r & Hr & H);
    [lia | lia | intros j Hj; lia|].
  rewrite Z.sub_0_r in Hr. exists r. split; [exact Hr | exact H].
Qed.

Lemma stristr_first_occurrence_witness :
  let s1 := bytes "Hello World" ++ [NUL] in
  let s2 := bytes "WORLD" ++ [NUL] in
  exists r,
    stristr 12 s1 s2 = Ret r /\
    match r with
    | Some i =>
        ci_prefix (bytes "WORLD") (drop i (bytes "Hello World")) /\
        forall j, j < i ->
                  ~ ci_prefix (bytes "WORLD") (drop j (bytes "Hello World"))
    | None =>
        forall j, ~ ci_prefix (bytes "WORLD") (drop j (bytes "Hello World"))
    end.
Proof.
  cbv zeta.
  apply (stristr_first_occurrence 12 _ _
           (bytes "Hello World") (bytes "WORLD")).
  - vm_compute. reflexivity.
  - vm_compute. reflexivity.
  - discriminate.
  - vm_compute. reflexivity.
  - vm_compute. reflexivity.
  - vm_compute. lia.
Defined.

(** The match is found whatever the case of either side, at its first
    place. *)
Example stristr_ignores_case :
  stristr 12 (bytes "Hello World" ++ [NUL]) (bytes "WORLD" ++ [NUL])
  = Ret (Some 6) /\
  stristr 12 (bytes "HELLO WORLD" ++ [NUL]) (bytes "o" ++ [NUL])
  = Ret (Some 4) /\
  stristr 12 (bytes "Hello World" ++ [NUL]) (bytes "word" ++ [NUL])
  = Ret None.
Proof. vm_compute. repeat split. Qed.

Lemma toupper_NUL a : toupper a = toupper NUL -> a = NUL.
Proof.
  destruct a as [[] [] [] [] [] [] [] []]; vm_compute; intros H;
    first [reflexivity | discriminate].
Qed.

Lemma stristr_find_empty (s k1 : list ascii) fuel : forall start,
  NUL ∉ s -> (Z.of_nat (length s) < 2 ^ 32)%Z ->
  start <= length s -> length s - start < fuel ->
  stristr_find fuel (s ++ NUL :: k1) [NUL] start
    (Z.of_nat (length s) - Z.of_nat start) 0
  = Ret (Some (length s, 0%Z)).
Proof.
  induction fuel as [|fuel IH]; intros start Hn H32 Hst Hf; [lia|].
  cbn [stristr_find].
  destruct (decide (start = length s)) as [->|Hne].
  - erewrite (load_at _ s k1 NUL); [|reflexivity | reflexivity].
    change (load [NUL] 0) with (Ret NUL). cbn [bind].
    rewrite Ascii.eqb_refl. cbn [negb]. rewrite Z.sub_diag. reflexivity.
  - destruct (lookup_lt_is_Some_2 s start) as [a Ha]; [lia|].
    assert (Hl : load (s ++ NUL :: k1) start = Ret a).
    { unfold load, mem, ptr. rewrite lookup_app_l by lia. rewrite Ha.
      reflexivity. }
    rewrite Hl. change (load [NUL] 0) with (Ret NUL). cbn [bind].
    assert (Hne' : Ascii.eqb (toupper a) (toupper NUL) = false).
    { apply Ascii.eqb_neq. intros Hu. apply toupper_NUL in Hu. subst a.
      apply Hn. eapply list_elem_of_lookup_2; eauto. }
    rewrite Hne'. cbn [negb]. cbv zeta. rewrite wrap32_small by lia.
    destruct (Z.ltb_spec (Z.of_nat (length s) - Z.of_nat start - 1) 0);
      [lia|].
    rewrite <- (IH (S start) Hn H32) by lia. f_equal. lia.
Qed.

(** [stristr] with an empty pattern walks to the terminator of the string
    and then reads the byte behind the terminator of the pattern: stored as
    its terminator alone, the empty pattern is read out of bounds. *)
Theorem stristr_empty_pattern (fuel : nat) (s1 s : list ascii) :
  cstring s1 = Ret s ->
  (Z.of_nat (length s) < 2 ^ 32)%Z ->
  length s < fuel ->
  stristr fuel s1 [NUL] = OutOfBounds.
Proof.
  intros Hs H32 Hf. unfold stristr. rewrite Hs. cbn [bind cstring].
  rewrite Ascii.eqb_refl. cbn [bind length].
  destruct (cstring_split _ _ Hs) as (k1 & -> & Hn).
  rewrite wrap32_small by lia. change (wrap32 (Z.of_nat 0)) with 0%Z.
  destruct fuel as [|fuel]; [lia|]. cbn [stristr_loop].
  destruct (Z.geb_spec (Z.of_nat (length s)) 0) as [_|Hlt]; [|lia].
  pose proof (stristr_find_empty s k1 (S fuel) 0 Hn H32) as Hfind.
  rewrite Z.sub_0_r in Hfind. rewrite Hfind by lia. cbn [bind].
  cbn [stristr_match].
  erewrite (load_at _ s k1 NUL); [|reflexivity | reflexivity].
  change (load [NUL] 0) with (Ret NUL). cbn [bind].
  rewrite Ascii.eqb_refl. reflexivity.
Qed.

Lemma stristr_empty_pattern_witness :
  cstring (bytes "abc" ++ [NUL]) = Ret (bytes "abc") /\
  (Z.of_nat (length (bytes "abc")) < 2 ^ 32)%Z /\
  length (bytes "abc") < 4 /\
  stristr 4 (bytes "abc" ++ [NUL]) [NUL] = OutOfBounds.
Proof.
  assert (H1 : cstring (bytes "abc" ++ [NUL]) = Ret (bytes "abc"))
    by (vm_compute; reflexivity).
  assert (H2 : (Z.of_nat (length (bytes "abc")) < 2 ^ 32)%Z)
    by (vm_compute; reflexivity).
  assert (H3 : length (bytes "abc") < 4) by (vm_compute; lia).
  split; [exact H1|]. split; [exact H2|]. split; [exact H3|].
  exact (stristr_empty_pattern 4 _ _ H1 H2 H3).
Defined.

(** * Bounds and termination *)

(** [DeleteRow] checks no bound: the erase lies inside the vector exactly
    when the index is at least -1 and less than the row count, and with -1
    it is the header row that goes. *)
Theorem DeleteRow_bounds (t : CSVStaticTable) (row_index : Z) :
  ((exists t', DeleteRow t row_index = Ret t') <->
   (-1 <= row_index < RowCount t)%Z) /\
  (forall t', DeleteRow t (-1) = Ret t' -> cells t' = tail (cells t)).
Proof.
  unfold DeleteRow, RowCount, erase. split.
  - destruct (Z.ltb_spec (1 + row_index) 0) as [Hneg|Hpos].
    + split; [intros [t' H]; discriminate | lia].
    + case_decide as Hk; cbn [bind].
      * split; [lia | eauto].
      * split; [intros [t' H]; discriminate | lia].
  - intros t'. cbn -[decide]. case_decide as Hk; [|discriminate].
    cbn [bind]. intros H. inversion H; subst. cbn [cells].
    destruct (cells t); reflexivity.
Qed.

Lemma PruneRows_with_empty_ends_witness :
  flag_set 1 CSV_ST_PRUNE_EMPTY = true /\
  length (cells (loaded csv_prune_rows)) <= 1 + 3 /\
  PruneRows 3 1 (loaded csv_prune_rows) <> NoFuel.
Proof.
  assert (H1 : flag_set 1 CSV_ST_PRUNE_EMPTY = true)
    by (vm_compute; reflexivity).
  assert (H2 : length (cells (loaded csv_prune_rows)) <= 1 + 3)
    by (vm_compute; lia).
  split; [exact H1|]. split; [exact H2|].
  exact (PruneRows_with_empty_ends 3 1 (loaded csv_prune_rows) H1 H2).
Defined.

Lemma ReadFile_without_pruning_ends_witness :
  flag_set 0 CSV_ST_PRUNE_EMPTY = false /\
  flag_set 0 CSV_ST_PRUNE_COMMENTS = false /\
  ReadFile 0 CSVStaticTable_new "in.csv" 0 (disk "in.csv" csv_quoted_last true)
  <> NoFuel.
Proof.
  assert (H1 : flag_set 0 CSV_ST_PRUNE_EMPTY = false)
    by (vm_compute; reflexivity).
  assert (H2 : flag_set 0 CSV_ST_PRUNE_COMMENTS = false)
    by (vm_compute; reflexivity).
  split; [exact H1|]. split; [exact H2|].
  exact (ReadFile_without_pruning_ends 0 CSVStaticTable_new "in.csv" 0
           (disk "in.csv" csv_quoted_last true) H1 H2).
Defined.
